(** * abcicli.socketClient: a shallow embedding of [client/socket_client.go]

    The pipelined ABCI socket client is embedded as explicit state passing
    over a record that mirrors the Go struct.  [*ReqRes] pointers become
    indices into a heap of handles, so that the submission queue, the
    in-flight list and the callers alias the same mutable object.  Calls to
    collaborators outside the file (the connection, the buffered writer, the
    logger, the callbacks) are recorded, in program order, in a trace. *)

From Stdlib Require Import ZArith Lia.
From stdpp Require Import base list strings.

Local Open Scope string_scope.
Local Open Scope list_scope.

(** ** The message types (package [types]) *)

Module types.

Definition Payload := string.

(** Modelled from the spec: the declaration of [types.Request] is not in
    this file.  It is a tagged union over the fixed set of request
    variants [Echo(msg)], [Flush], [Info(...)], [SetOption(key, value)],
    [DeliverTx(bytes)], [CheckTx(bytes)], [Commit], [Query(...)],
    [InitChain(...)], [BeginBlock(...)], [EndBlock(height)]. *)
Inductive isRequest_Value : Type :=
| Request_Echo (msg : string)
| Request_Flush
| Request_Info (req : Payload)
| Request_SetOption (key value : string)
| Request_DeliverTx (tx : Payload)
| Request_CheckTx (tx : Payload)
| Request_Commit
| Request_Query (req : Payload)
| Request_InitChain (params : Payload)
| Request_BeginBlock (params : Payload)
| Request_EndBlock (height : N).

(** The [Value] field is a Go interface, so it may hold no variant. *)
Record Request : Type := mkRequest { req_Value : option isRequest_Value }.

(** Modelled from the spec: the declaration of [types.Response] is not in
    this file.  Each request variant has a response variant with the same
    tag; in addition there is the distinguished [Exception{error}]. *)
Inductive isResponse_Value : Type :=
| Response_Exception (error : string)
| Response_Echo (msg : string)
| Response_Flush
| Response_Info (res : Payload)
| Response_SetOption (log : string)
| Response_DeliverTx (res : Payload)
| Response_CheckTx (res : Payload)
| Response_Commit (res : Payload)
| Response_Query (res : Payload)
| Response_InitChain
| Response_BeginBlock
| Response_EndBlock (res : Payload).

Record Response : Type := mkResponse { res_Value : option isResponse_Value }.

Definition ToRequestEcho (msg : string) : Request :=
  mkRequest (Some (Request_Echo msg)).
Definition ToRequestFlush : Request := mkRequest (Some Request_Flush).
Definition ToRequestInfo (req : Payload) : Request :=
  mkRequest (Some (Request_Info req)).
Definition ToRequestSetOption (key value : string) : Request :=
  mkRequest (Some (Request_SetOption key value)).
Definition ToRequestDeliverTx (tx : Payload) : Request :=
  mkRequest (Some (Request_DeliverTx tx)).
Definition ToRequestCheckTx (tx : Payload) : Request :=
  mkRequest (Some (Request_CheckTx tx)).
Definition ToRequestCommit : Request := mkRequest (Some Request_Commit).
Definition ToRequestQuery (req : Payload) : Request :=
  mkRequest (Some (Request_Query req)).
Definition ToRequestInitChain (params : Payload) : Request :=
  mkRequest (Some (Request_InitChain params)).
Definition ToRequestBeginBlock (params : Payload) : Request :=
  mkRequest (Some (Request_BeginBlock params)).
Definition ToRequestEndBlock (height : N) : Request :=
  mkRequest (Some (Request_EndBlock height)).

(** The variant tags, used to state what the matching predicate decides. *)
Inductive Tag : Type :=
| Echo | Flush | Info | SetOption | DeliverTx | CheckTx
| Commit | Query | InitChain | BeginBlock | EndBlock | Exception.

Definition request_tag (req : Request) : option Tag :=
  match req_Value req with
  | None => None
  | Some (Request_Echo _) => Some Echo
  | Some Request_Flush => Some Flush
  | Some (Request_Info _) => Some Info
  | Some (Request_SetOption _ _) => Some SetOption
  | Some (Request_DeliverTx _) => Some DeliverTx
  | Some (Request_CheckTx _) => Some CheckTx
  | Some Request_Commit => Some Commit
  | Some (Request_Query _) => Some Query
  | Some (Request_InitChain _) => Some InitChain
  | Some (Request_BeginBlock _) => Some BeginBlock
  | Some (Request_EndBlock _) => Some EndBlock
  end.

Definition response_tag (res : Response) : option Tag :=
  match res_Value res with
  | None => None
  | Some (Response_Exception _) => Some Exception
  | Some (Response_Echo _) => Some Echo
  | Some Response_Flush => Some Flush
  | Some (Response_Info _) => Some Info
  | Some (Response_SetOption _) => Some SetOption
  | Some (Response_DeliverTx _) => Some DeliverTx
  | Some (Response_CheckTx _) => Some CheckTx
  | Some (Response_Commit _) => Some Commit
  | Some (Response_Query _) => Some Query
  | Some Response_InitChain => Some InitChain
  | Some Response_BeginBlock => Some BeginBlock
  | Some (Response_EndBlock _) => Some EndBlock
  end.

(** The eleven request/response pairings of the protocol. *)
Definition pairings : list Tag :=
  [Echo; Flush; Info; SetOption; DeliverTx; CheckTx;
   Commit; Query; InitChain; BeginBlock; EndBlock].

(** [reflect.TypeOf(v)] printed with [%v], for the two interfaces. *)
Definition TypeOf_Request_Value (v : option isRequest_Value) : string :=
  match v with
  | None => "<nil>"
  | Some (Request_Echo _) => "*types.Request_Echo"
  | Some Request_Flush => "*types.Request_Flush"
  | Some (Request_Info _) => "*types.Request_Info"
  | Some (Request_SetOption _ _) => "*types.Request_SetOption"
  | Some (Request_DeliverTx _) => "*types.Request_DeliverTx"
  | Some (Request_CheckTx _) => "*types.Request_CheckTx"
  | Some Request_Commit => "*types.Request_Commit"
  | Some (Request_Query _) => "*types.Request_Query"
  | Some (Request_InitChain _) => "*types.Request_InitChain"
  | Some (Request_BeginBlock _) => "*types.Request_BeginBlock"
  | Some (Request_EndBlock _) => "*types.Request_EndBlock"
  end.

Definition TypeOf_Response_Value (v : option isResponse_Value) : string :=
  match v with
  | None => "<nil>"
  | Some (Response_Exception _) => "*types.Response_Exception"
  | Some (Response_Echo _) => "*types.Response_Echo"
  | Some Response_Flush => "*types.Response_Flush"
  | Some (Response_Info _) => "*types.Response_Info"
  | Some (Response_SetOption _) => "*types.Response_SetOption"
  | Some (Response_DeliverTx _) => "*types.Response_DeliverTx"
  | Some (Response_CheckTx _) => "*types.Response_CheckTx"
  | Some (Response_Commit _) => "*types.Response_Commit"
  | Some (Response_Query _) => "*types.Response_Query"
  | Some Response_InitChain => "*types.Response_InitChain"
  | Some Response_BeginBlock => "*types.Response_BeginBlock"
  | Some (Response_EndBlock _) => "*types.Response_EndBlock"
  end.

(** Modelled from the spec: [types.HumanCode(types.CodeType_InternalError)]
    is not in this file; it is the generic internal-error tag with which
    [Error] wraps the latched error. *)
Definition HumanCode_InternalError : string := "Internal error".

End types.

Import types.

(** ** Go errors *)

(** An error is either a message ([errors.New], [fmt.Errorf], or whatever a
    collaborator returned) or a cause wrapped with a message
    ([errors.Wrap]). *)
Inductive error : Type :=
| errorString (s : string)
| withMessage (cause : error) (msg : string).

(** The [Error()] method. *)
Fixpoint error_Error (e : error) : string :=
  match e with
  | errorString s => s
  | withMessage cause msg => msg +:+ ": " +:+ error_Error cause
  end.

(** [errors.Wrap]: wrapping the nil error gives nil. *)
Definition errors_Wrap (e : option error) (msg : string) : option error :=
  match e with
  | None => None
  | Some e => Some (withMessage e msg)
  end.

(** ** Response/request matching *)

Definition resMatchesReq (req : Request) (res : Response) : bool :=
  match req_Value req with
  | Some (Request_Echo _) =>
      match res_Value res with Some (Response_Echo _) => true | _ => false end
  | Some Request_Flush =>
      match res_Value res with Some Response_Flush => true | _ => false end
  | Some (Request_Info _) =>
      match res_Value res with Some (Response_Info _) => true | _ => false end
  | Some (Request_SetOption _ _) =>
      match res_Value res with Some (Response_SetOption _) => true | _ => false end
  | Some (Request_DeliverTx _) =>
      match res_Value res with Some (Response_DeliverTx _) => true | _ => false end
  | Some (Request_CheckTx _) =>
      match res_Value res with Some (Response_CheckTx _) => true | _ => false end
  | Some Request_Commit =>
      match res_Value res with Some (Response_Commit _) => true | _ => false end
  | Some (Request_Query _) =>
      match res_Value res with Some (Response_Query _) => true | _ => false end
  | Some (Request_InitChain _) =>
      match res_Value res with Some Response_InitChain => true | _ => false end
  | Some (Request_BeginBlock _) =>
      match res_Value res with Some Response_BeginBlock => true | _ => false end
  | Some (Request_EndBlock _) =>
      match res_Value res with Some (Response_EndBlock _) => true | _ => false end
  | None => false
  end.

(** ** Handles, shared through pointers *)

(** A [*ReqRes] is an index into the heap of handles. *)
Abbreviation ptr := nat (only parsing).

(** A callback closure is known by its identity; calling it is an event. *)
Definition Callback := nat.

(** A [net.Conn] is known by its identity. *)
Definition Conn := nat.

(** Modelled from the spec: the [ReqRes] handle is declared outside this
    file.  It holds the outbound request, the optional inbound response, the
    one-shot completion signal and the optional per-request callback;
    [NewReqRes] constructs a fresh handle with no response and unsignaled
    completion, [Done] signals completion, [Wait] blocks until it is
    signaled, [GetCallback] returns the installed callback or none. *)
Record ReqRes : Type := mkReqRes {
  rr_Request : Request;
  rr_Response : option Response;
  rr_done : bool;
  rr_cb : option Callback
}.

Definition ReqRes_fresh (req : Request) : ReqRes :=
  {| rr_Request := req; rr_Response := None; rr_done := false; rr_cb := None |}.

Definition ReqRes_set_done (r : ReqRes) : ReqRes :=
  {| rr_Request := rr_Request r; rr_Response := rr_Response r;
     rr_done := true; rr_cb := rr_cb r |}.

Definition ReqRes_set_Response (res : Response) (r : ReqRes) : ReqRes :=
  {| rr_Request := rr_Request r; rr_Response := Some res;
     rr_done := rr_done r; rr_cb := rr_cb r |}.

(** ** Constants *)

Definition reqQueueSize : nat := 256.
Definition flushThrottleMS : Z := 20.
Definition time_Second : Z := 1000000000.

(** ** The client *)

(** The struct, with the embedded [cmn.BaseService] flattened into its
    first three fields.  Modelled from the spec: [cmn.BaseService] and
    [cmn.ThrottleTimer] are declared outside this file.  The service keeps a
    running flag ([started] and not [stopped]) and a [Quit] channel that is
    closed at shutdown; the timer is either armed or not. *)
Record socketClient : Type := mkSocketClient {
  started : bool;
  stopped : bool;
  Quit : bool;                (* the channel has been closed *)
  reqQueue : list ptr;        (* buffered channel of capacity reqQueueSize *)
  flushTimer : bool;          (* the throttle timer is armed *)
  mustConnect : bool;
  addr : string;
  conn : option Conn;
  err : option error;
  reqSent : list ptr;         (* container/list, front first *)
  resCb : option Callback
}.

Inductive goroutine : Type := sendRequestsRoutine_go | recvResponseRoutine_go.

(** Calls that leave the client, and the append to the in-flight list. *)
Inductive event : Type :=
| cmn_Connect (a : string)
| Logger_Error (msg : string)
| time_Sleep (d : Z)
| go_stmt (g : goroutine) (c : Conn)
| conn_Close (c : Conn)
| reqSent_PushBack (reqres : ptr)
| types_WriteMessage (req : Request)
| w_Flush
| call_cb (cb : Callback) (res : Response)
| call_resCb (cb : Callback) (req : Request) (res : Response).

Record world : Type := mkWorld {
  cli : socketClient;
  heap : list ReqRes;
  trace : list event
}.

Definition upd_cli (f : socketClient -> socketClient) (w : world) : world :=
  {| cli := f (cli w); heap := heap w; trace := trace w |}.

Definition upd_heap (f : list ReqRes -> list ReqRes) (w : world) : world :=
  {| cli := cli w; heap := f (heap w); trace := trace w |}.

Definition emit (e : event) (w : world) : world :=
  {| cli := cli w; heap := heap w; trace := trace w ++ [e] |}.

Definition set_started (b : bool) (c : socketClient) : socketClient :=
  mkSocketClient b (stopped c) (Quit c) (reqQueue c) (flushTimer c)
    (mustConnect c) (addr c) (conn c) (err c) (reqSent c) (resCb c).
Definition set_stopped (b : bool) (c : socketClient) : socketClient :=
  mkSocketClient (started c) b (Quit c) (reqQueue c) (flushTimer c)
    (mustConnect c) (addr c) (conn c) (err c) (reqSent c) (resCb c).
Definition set_Quit (b : bool) (c : socketClient) : socketClient :=
  mkSocketClient (started c) (stopped c) b (reqQueue c) (flushTimer c)
    (mustConnect c) (addr c) (conn c) (err c) (reqSent c) (resCb c).
Definition set_reqQueue (q : list ptr) (c : socketClient) : socketClient :=
  mkSocketClient (started c) (stopped c) (Quit c) q (flushTimer c)
    (mustConnect c) (addr c) (conn c) (err c) (reqSent c) (resCb c).
Definition set_flushTimer (b : bool) (c : socketClient) : socketClient :=
  mkSocketClient (started c) (stopped c) (Quit c) (reqQueue c) b
    (mustConnect c) (addr c) (conn c) (err c) (reqSent c) (resCb c).
Definition set_conn (k : option Conn) (c : socketClient) : socketClient :=
  mkSocketClient (started c) (stopped c) (Quit c) (reqQueue c) (flushTimer c)
    (mustConnect c) (addr c) k (err c) (reqSent c) (resCb c).
Definition set_err (e : option error) (c : socketClient) : socketClient :=
  mkSocketClient (started c) (stopped c) (Quit c) (reqQueue c) (flushTimer c)
    (mustConnect c) (addr c) (conn c) e (reqSent c) (resCb c).
Definition set_reqSent (l : list ptr) (c : socketClient) : socketClient :=
  mkSocketClient (started c) (stopped c) (Quit c) (reqQueue c) (flushTimer c)
    (mustConnect c) (addr c) (conn c) (err c) l (resCb c).
Definition set_resCb (f : option Callback) (c : socketClient) : socketClient :=
  mkSocketClient (started c) (stopped c) (Quit c) (reqQueue c) (flushTimer c)
    (mustConnect c) (addr c) (conn c) (err c) (reqSent c) f.

Definition NewSocketClient (a : string) (must : bool) : world :=
  {| cli := {| started := false; stopped := false; Quit := false;
               reqQueue := []; flushTimer := false; mustConnect := must;
               addr := a; conn := None; err := None; reqSent := [];
               resCb := None |};
     heap := [];
     trace := [] |}.

(** *** Handle operations *)

(** Modelled from the spec: [NewReqRes], [Done] and [Wait] belong to the
    handle and are defined outside this file.  [NewReqRes] allocates a
    fresh handle and returns the pointer to it. *)
Definition NewReqRes (req : Request) (w : world) : ptr * world :=
  (length (heap w), upd_heap (fun h => h ++ [ReqRes_fresh req]) w).

(** [Done] signals completion on the handle that the pointer names; every
    holder of the pointer sees it. *)
Definition ReqRes_Done (reqres : ptr) (w : world) : world :=
  upd_heap (alter ReqRes_set_done reqres) w.

(** [Wait] returns once the handle is done; [None] when the caller would be
    parked in this world. *)
Definition ReqRes_Wait (reqres : ptr) (w : world) : option world :=
  match heap w !! reqres with
  | Some r => if rr_done r then Some w else None
  | None => None
  end.

Definition is_done (reqres : ptr) (w : world) : bool :=
  match heap w !! reqres with
  | Some r => rr_done r
  | None => false
  end.

(** *** The lifecycle harness *)

(** Modelled from the spec: [BaseService.IsRunning] is defined outside this
    file.  The client is running from its start until it is marked
    not-running by the first [Stop]. *)
Definition IsRunning (w : world) : bool :=
  started (cli w) && negb (stopped (cli w)).

(** Modelled from the spec: the embedded [BaseService.OnStop] is defined
    outside this file.  It raises the shutdown signal on which the sender
    task returns, by closing [Quit]. *)
Definition BaseService_OnStop (w : world) : world :=
  upd_cli (set_Quit true) w.

(** *** Throttle timer *)

(** Modelled from the spec: [ThrottleTimer.Set] and [ThrottleTimer.Unset]
    are defined outside this file.  [Set] arms the timer and does nothing
    when it is armed already; [Unset] cancels an armed firing. *)
Definition flushTimer_Set (w : world) : world := upd_cli (set_flushTimer true) w.
Definition flushTimer_Unset (w : world) : world := upd_cli (set_flushTimer false) w.

(** *** Shutdown *)

(** The [LOOP] of [flushQueue]: receive from the channel while it has an
    element, signalling each handle; leave at the first empty poll. *)
Fixpoint flushQueue_LOOP (q : list ptr) (w : world) : world :=
  match q with
  | [] => w
  | reqres :: q' =>
      flushQueue_LOOP q' (ReqRes_Done reqres (upd_cli (set_reqQueue q') w))
  end.

Definition flushQueue (w : world) : world :=
  flushQueue_LOOP (reqQueue (cli w)) w.

Definition OnStop (w : world) : world :=
  let w := BaseService_OnStop w in
  let w := match conn (cli w) with
           | Some c => emit (conn_Close c) w
           | None => w
           end in
  flushQueue w.

(** Modelled from the spec: [BaseService.Stop] is defined outside this
    file.  It is idempotent: the first call marks the client not-running
    and runs [OnStop]; later calls do nothing. *)
Definition Stop (w : world) : world :=
  if stopped (cli w) then w
  else OnStop (upd_cli (set_stopped true) w).

Definition StopForError (e : error) (w : world) : world :=
  if negb (IsRunning w) then w
  else
    let w := match err (cli w) with
             | None => upd_cli (set_err (Some e)) w
             | Some _ => w
             end in
    let w := emit (Logger_Error
                     ("Stopping abci.socketClient for error: " +:+ error_Error e)) w in
    Stop w.

Definition Error (w : world) : option error :=
  errors_Wrap (err (cli w)) HumanCode_InternalError.

Definition SetResponseCallback (f : option Callback) (w : world) : world :=
  upd_cli (set_resCb f) w.

(** ** Start *)

(** What [OnStart] has done when the observation ends: it is still in its
    [RETRY_LOOP] ([looping]) or it has returned an error value. *)
Inductive start_result : Type :=
| looping
| returned (e : option error).

(** [dial k] is the outcome of the [k]-th call of [cmn.Connect]; [fuel]
    bounds the number of iterations that are observed. *)
Fixpoint RETRY_LOOP (fuel : nat) (dial : nat -> error + Conn) (k : nat)
    (w : world) : start_result * world :=
  match fuel with
  | O => (looping, w)
  | S fuel' =>
      let w := emit (cmn_Connect (addr (cli w))) w in
      match dial k with
      | inl e =>
          if mustConnect (cli w) then (returned (Some e), w)
          else
            let w := emit (Logger_Error
                             ("abci.socketClient failed to connect to "
                              +:+ addr (cli w) +:+ ".  Retrying...")) w in
            let w := emit (time_Sleep (time_Second * 3)) w in
            RETRY_LOOP fuel' dial (S k) w
      | inr c =>
          let w := upd_cli (set_conn (Some c)) w in
          let w := emit (go_stmt sendRequestsRoutine_go c) w in
          let w := emit (go_stmt recvResponseRoutine_go c) w in
          (returned None, w)
      end
  end.

(** [base] is what the embedded [BaseService.OnStart] returns. *)
Definition OnStart (base : option error) (fuel : nat)
    (dial : nat -> error + Conn) (w : world) : start_result * world :=
  match base with
  | Some e => (returned (Some e), w)
  | None => RETRY_LOOP fuel dial 0 w
  end.

(** Modelled from the spec: [BaseService.Start] is declared outside this
    file.  A client that was never started or stopped becomes running and
    runs [OnStart]; when that fails the client is not running. *)
Definition Start (base : option error) (fuel : nat)
    (dial : nat -> error + Conn) (w : world) : start_result * world :=
  if started (cli w) || stopped (cli w) then (returned None, w)
  else
    match OnStart base fuel dial (upd_cli (set_started true) w) with
    | (returned (Some e), w') => (returned (Some e), upd_cli (set_started false) w')
    | r => r
    end.

(** ** The sender task *)

Inductive ctl : Type := Continue | Return.

Definition deref_Request (reqres : ptr) (w : world) : Request :=
  match heap w !! reqres with
  | Some r => rr_Request r
  | None => mkRequest None
  end.

Definition willSendReq (reqres : ptr) (w : world) : world :=
  emit (reqSent_PushBack reqres)
       (upd_cli (fun c => set_reqSent (reqSent c ++ [reqres]) c) w).

(** The statements of the [reqQueue] case that follow [willSendReq]; [wr]
    and [fl] are what [types.WriteMessage] and [w.Flush] return. *)
Definition write_and_flush (wr fl : option error) (reqres : ptr) (w : world)
    : ctl * world :=
  let req := deref_Request reqres w in
  let w := emit (types_WriteMessage req) w in
  match wr with
  | Some e =>
      (Return, StopForError (errorString ("Error writing msg: " +:+ error_Error e)) w)
  | None =>
      match req_Value req with
      | Some Request_Flush =>
          let w := emit w_Flush w in
          match fl with
          | Some e =>
              (Return,
               StopForError (errorString ("Error flushing writer: " +:+ error_Error e)) w)
          | None => (Continue, w)
          end
      | _ => (Continue, w)
      end
  end.

(** [case reqres := <-cli.reqQueue], after the receive. *)
Definition case_reqQueue (wr fl : option error) (reqres : ptr) (w : world)
    : ctl * world :=
  write_and_flush wr fl reqres (willSendReq reqres w).

(** [case <-cli.flushTimer.Ch], after the receive: a send on the submission
    queue that is given up when the queue is full.  The handle is
    constructed before the send is tried. *)
Definition case_flushTimer (w : world) : ctl * world :=
  let '(reqres, w) := NewReqRes ToRequestFlush w in
  if (length (reqQueue (cli w)) <? reqQueueSize)%nat
  then (Continue, upd_cli (fun c => set_reqQueue (reqQueue c ++ [reqres]) c) w)
  else (Continue, w).

Inductive select_case : Type := recv_flushTimer | recv_Quit | recv_reqQueue.

(** One iteration of the [for] loop of [sendRequestsRoutine], for the case
    [c] that the [select] takes; [None] when that case is not ready.  The
    timer delivers on its channel only while it is armed, and is disarmed by
    the delivery. *)
Definition sendRequestsRoutine_iter (c : select_case) (wr fl : option error)
    (w : world) : option (ctl * world) :=
  match c with
  | recv_flushTimer =>
      if flushTimer (cli w)
      then Some (case_flushTimer (flushTimer_Unset w))
      else None
  | recv_Quit =>
      if Quit (cli w) then Some (Return, w) else None
  | recv_reqQueue =>
      match reqQueue (cli w) with
      | [] => None
      | reqres :: q => Some (case_reqQueue wr fl reqres (upd_cli (set_reqQueue q) w))
      end
  end.

(** ** The receiver task *)

(** The two protocol errors that [didRecvResponse] builds with
    [fmt.Errorf]. *)
Definition Errorf_nothing_expected (res : Response) : error :=
  errorString ("Unexpected result type "
               +:+ TypeOf_Response_Value (res_Value res)
               +:+ " when nothing expected").

Definition Errorf_mismatch (res : Response) (req : Request) : error :=
  errorString ("Unexpected result type "
               +:+ TypeOf_Response_Value (res_Value res)
               +:+ " when response to "
               +:+ TypeOf_Request_Value (req_Value req)
               +:+ " expected").

Definition didRecvResponse (res : Response) (w : world) : option error * world :=
  match reqSent (cli w) with
  | [] =>
      (Some (Errorf_nothing_expected res), w)
  | next :: rest =>
      let req := deref_Request next w in
      if negb (resMatchesReq req res) then
        (Some (Errorf_mismatch res req), w)
      else
        let w := upd_heap (alter (ReqRes_set_Response res) next) w in
        let w := ReqRes_Done next w in
        let w := upd_cli (set_reqSent rest) w in
        let w := match heap w !! next with
                 | Some {| rr_cb := Some cb |} => emit (call_cb cb res) w
                 | _ => w
                 end in
        let w := match resCb (cli w) with
                 | Some cb => emit (call_resCb cb req res) w
                 | None => w
                 end in
        (None, w)
  end.

(** One iteration of the [for] loop of [recvResponseRoutine]; [rd] is what
    [types.ReadMessage] returns. *)
Definition recvResponseRoutine_iter (rd : error + Response) (w : world)
    : ctl * world :=
  match rd with
  | inl e => (Return, StopForError e w)
  | inr res =>
      match res_Value res with
      | Some (Response_Exception msg) =>
          (Return, StopForError (errorString msg) w)
      | _ =>
          match didRecvResponse res w with
          | (Some e, w) => (Return, StopForError e w)
          | (None, w) => (Continue, w)
          end
      end
  end.

(** ** Submission *)

(** [None] when the send on the full submission queue blocks the caller. *)
Definition queueRequest (req : Request) (w : world) : option (ptr * world) :=
  let '(reqres, w) := NewReqRes req w in
  if (length (reqQueue (cli w)) <? reqQueueSize)%nat then
    let w := upd_cli (fun c => set_reqQueue (reqQueue c ++ [reqres]) c) w in
    let w := match req_Value req with
             | Some Request_Flush => flushTimer_Unset w
             | _ => flushTimer_Set w
             end in
    Some (reqres, w)
  else None.

Definition EchoAsync (msg : string) := queueRequest (ToRequestEcho msg).
Definition FlushAsync := queueRequest ToRequestFlush.
Definition InfoAsync (req : Payload) := queueRequest (ToRequestInfo req).
Definition SetOptionAsync (key value : string) :=
  queueRequest (ToRequestSetOption key value).
Definition DeliverTxAsync (tx : Payload) := queueRequest (ToRequestDeliverTx tx).
Definition CheckTxAsync (tx : Payload) := queueRequest (ToRequestCheckTx tx).
Definition QueryAsync (reqQuery : Payload) := queueRequest (ToRequestQuery reqQuery).
Definition CommitAsync := queueRequest ToRequestCommit.
Definition InitChainAsync (params : Payload) :=
  queueRequest (ToRequestInitChain params).
Definition BeginBlockAsync (params : Payload) :=
  queueRequest (ToRequestBeginBlock params).
Definition EndBlockAsync (height : N) := queueRequest (ToRequestEndBlock height).

(** ** The synchronous forms *)

Definition deref_Response (reqres : ptr) (w : world) : option Response :=
  heap w !! reqres ≫= rr_Response.

(** The typed accessors of a (possibly nil) [*types.Response]. *)
Definition GetEcho (r : option Response) : option string :=
  match r with Some {| res_Value := Some (Response_Echo m) |} => Some m | _ => None end.
Definition GetInfo (r : option Response) : option Payload :=
  match r with Some {| res_Value := Some (Response_Info x) |} => Some x | _ => None end.
Definition GetSetOption (r : option Response) : option string :=
  match r with Some {| res_Value := Some (Response_SetOption x) |} => Some x | _ => None end.
Definition GetDeliverTx (r : option Response) : option Payload :=
  match r with Some {| res_Value := Some (Response_DeliverTx x) |} => Some x | _ => None end.
Definition GetCheckTx (r : option Response) : option Payload :=
  match r with Some {| res_Value := Some (Response_CheckTx x) |} => Some x | _ => None end.
Definition GetQuery (r : option Response) : option Payload :=
  match r with Some {| res_Value := Some (Response_Query x) |} => Some x | _ => None end.
Definition GetCommit (r : option Response) : option Payload :=
  match r with Some {| res_Value := Some (Response_Commit x) |} => Some x | _ => None end.
Definition GetEndBlock (r : option Response) : option Payload :=
  match r with Some {| res_Value := Some (Response_EndBlock x) |} => Some x | _ => None end.

(** A synchronous call is embedded as one caller running on its own: the
    result is [None] when the call does not return from this world, because
    the submission queue is full or because the handle it waits on is not
    done. *)
Definition FlushSync (w : world) : option (option error * world) :=
  '(reqRes, w) ← queueRequest ToRequestFlush w;
  match Error w with
  | Some e => Some (Some e, w)
  | None => w ← ReqRes_Wait reqRes w; Some (Error w, w)
  end.

Definition EchoSync (msg : string) (w : world)
    : option (option string * option error * world) :=
  '(reqres, w) ← queueRequest (ToRequestEcho msg) w;
  '(_, w) ← FlushSync w;
  Some (GetEcho (deref_Response reqres w), Error w, w).

Definition InfoSync (req : Payload) (w : world)
    : option (option Payload * option error * world) :=
  '(reqres, w) ← queueRequest (ToRequestInfo req) w;
  '(_, w) ← FlushSync w;
  Some (GetInfo (deref_Response reqres w), Error w, w).

(** Without a latched error the log is read through the accessor's result,
    which must not be nil. *)
Definition SetOptionSync (key value : string) (w : world)
    : option (string * option error * world) :=
  '(reqres, w) ← queueRequest (ToRequestSetOption key value) w;
  '(_, w) ← FlushSync w;
  match Error w with
  | Some e => Some ("", Some e, w)
  | None => log ← GetSetOption (deref_Response reqres w); Some (log, None, w)
  end.

Definition DeliverTxSync (tx : Payload) (w : world)
    : option (option Payload * option error * world) :=
  '(reqres, w) ← queueRequest (ToRequestDeliverTx tx) w;
  '(_, w) ← FlushSync w;
  Some (GetDeliverTx (deref_Response reqres w), Error w, w).

Definition CheckTxSync (tx : Payload) (w : world)
    : option (option Payload * option error * world) :=
  '(reqres, w) ← queueRequest (ToRequestCheckTx tx) w;
  '(_, w) ← FlushSync w;
  Some (GetCheckTx (deref_Response reqres w), Error w, w).

Definition QuerySync (req : Payload) (w : world)
    : option (option Payload * option error * world) :=
  '(reqres, w) ← queueRequest (ToRequestQuery req) w;
  '(_, w) ← FlushSync w;
  Some (GetQuery (deref_Response reqres w), Error w, w).

Definition CommitSync (w : world)
    : option (option Payload * option error * world) :=
  '(reqres, w) ← queueRequest ToRequestCommit w;
  '(_, w) ← FlushSync w;
  Some (GetCommit (deref_Response reqres w), Error w, w).

Definition InitChainSync (params : Payload) (w : world)
    : option (option error * world) :=
  '(_, w) ← queueRequest (ToRequestInitChain params) w;
  '(_, w) ← FlushSync w;
  Some (Error w, w).

Definition BeginBlockSync (params : Payload) (w : world)
    : option (option error * world) :=
  '(_, w) ← queueRequest (ToRequestBeginBlock params) w;
  '(_, w) ← FlushSync w;
  Some (Error w, w).

Definition EndBlockSync (height : N) (w : world)
    : option (option Payload * option error * world) :=
  '(reqres, w) ← queueRequest (ToRequestEndBlock height) w;
  '(_, w) ← FlushSync w;
  Some (GetEndBlock (deref_Response reqres w), Error w, w).

(** ** Executions *)

(** The two tasks as loops over what they are given: [sched] lists, for one
    iteration after the other, the case the [select] takes and the outcomes
    of the write and of the flush; [reads] lists the outcomes of
    [types.ReadMessage].  [Continue] means that the task is still in its
    loop when the list is used up. *)
Fixpoint sendRequestsRoutine
    (sched : list (select_case * option error * option error)) (w : world)
    : option (ctl * world) :=
  match sched with
  | [] => Some (Continue, w)
  | (c, wr, fl) :: sched' =>
      match sendRequestsRoutine_iter c wr fl w with
      | None => None
      | Some (Return, w') => Some (Return, w')
      | Some (Continue, w') => sendRequestsRoutine sched' w'
      end
  end.

Fixpoint recvResponseRoutine (reads : list (error + Response)) (w : world)
    : ctl * world :=
  match reads with
  | [] => (Continue, w)
  | rd :: reads' =>
      match recvResponseRoutine_iter rd w with
      | (Return, w') => (Return, w')
      | (Continue, w') => recvResponseRoutine reads' w'
      end
  end.

(** The atomic actions of the callers and of the two tasks.  An execution
    of the client is an interleaving of them. *)
Inductive action : Type :=
| act_queueRequest (req : Request)
| act_sender (c : select_case) (wr fl : option error)
| act_receiver (rd : error + Response)
| act_Start (base : option error) (fuel : nat) (dial : nat -> error + Conn)
| act_Stop
| act_SetResponseCallback (f : option Callback).

(** [None] when the action cannot be taken in this world. *)
Definition perform (a : action) (w : world) : option world :=
  match a with
  | act_queueRequest req => snd <$> queueRequest req w
  | act_sender c wr fl => snd <$> sendRequestsRoutine_iter c wr fl w
  | act_receiver rd => Some (snd (recvResponseRoutine_iter rd w))
  | act_Start base fuel dial => Some (snd (Start base fuel dial w))
  | act_Stop => Some (Stop w)
  | act_SetResponseCallback f => Some (SetResponseCallback f w)
  end.

Fixpoint run (acts : list action) (w : world) : option world :=
  match acts with
  | [] => Some w
  | a :: acts' =>
      match perform a w with
      | Some w' => run acts' w'
      | None => None
      end
  end.

Definition steps (w w' : world) : Prop := exists acts, run acts w = Some w'.

(** The action hands a response to [didRecvResponse]. *)
Definition delivers (a : action) : bool :=
  match a with
  | act_receiver (inr res) =>
      match res_Value res with
      | Some (Response_Exception _) => false
      | _ => true
      end
  | _ => false
  end.

(** The handle exists, is not done and is not in the submission queue: a
    caller in [Wait] on it is parked. *)
Definition parked (reqres : ptr) (w : world) : Prop :=
  (exists r, heap w !! reqres = Some r /\ rr_done r = false)
  /\ ~ In reqres (reqQueue (cli w)).

(** ** Derived notions used in the statements *)

(** A client whose first connect succeeded: it is running, with both tasks
    started. *)
Definition started_client : world :=
  snd (Start None 1 (fun _ => inr 1%nat)
         (NewSocketClient "tcp://127.0.0.1:46658" true)).

(** The execution: the client starts; a caller submits [Echo "a"] and then
    [Echo "b"]; the sender task takes the first one from the queue, appends
    it to the in-flight list and writes it; then the client is stopped
    before any response arrives. *)
Definition stop_with_request_in_flight : option (ptr * ptr * world) :=
  '(a, w) ← EchoAsync "a" started_client;
  '(b, w) ← EchoAsync "b" w;
  '(_, w) ← sendRequestsRoutine_iter recv_reqQueue None None w;
  Some (a, b, Stop w).

(** The events that an action adds to the trace. *)
Definition new_events (w w' : world) : list event :=
  drop (length (trace w)) (trace w').

(** What [StopForError] adds to the trace: nothing when the client is not
    running; otherwise the log line and, through [Stop], the close of the
    connection. *)
Definition StopForError_events (e : error) (w : world) : list event :=
  if negb (IsRunning w) then []
  else Logger_Error ("Stopping abci.socketClient for error: " +:+ error_Error e)
       :: match conn (cli w) with Some c => [conn_Close c] | None => [] end.

Definition is_stop_event (ev : event) : bool :=
  match ev with
  | Logger_Error _ | conn_Close _ => true
  | _ => false
  end.

(** The events of the [reqQueue] case, in program order. *)
Definition case_reqQueue_events (wr fl : option error) (reqres : ptr) (w : world)
    : list event :=
  let req := deref_Request reqres w in
  reqSent_PushBack reqres :: types_WriteMessage req ::
  match wr with
  | Some e => StopForError_events (errorString ("Error writing msg: " +:+ error_Error e)) w
  | None =>
      match req_Value req with
      | Some Request_Flush =>
          w_Flush ::
          match fl with
          | Some e =>
              StopForError_events
                (errorString ("Error flushing writer: " +:+ error_Error e)) w
          | None => []
          end
      | _ => []
      end
  end.

Definition emits (evs : list event) (w : world) : world :=
  foldl (fun w e => emit e w) w evs.

(** One failed round of the [RETRY_LOOP]: the connect attempt, the log line
    and the sleep of three seconds. *)
Definition retry_events (a : string) : list event :=
  [cmn_Connect a;
   Logger_Error ("abci.socketClient failed to connect to " +:+ a +:+ ".  Retrying...");
   time_Sleep (time_Second * 3)].

Fixpoint retries (n : nat) (a : string) : list event :=
  match n with
  | O => []
  | S n' => retry_events a ++ retries n' a
  end.

(** The protocol errors are the two that [didRecvResponse] builds. *)
Definition is_ProtocolError (e : error) : Prop :=
  (exists res, e = Errorf_nothing_expected res)
  \/ (exists res req, e = Errorf_mismatch res req).

(** The client has failed with [e]: the error is latched and the client is
    stopped. *)
Definition failed_with (e : error) (w : world) : Prop :=
  err (cli w) = Some e /\ stopped (cli w) = true.

(** The synchronous entry points, and the error each of them returns. *)
Inductive sync_call : Type :=
| call_FlushSync
| call_EchoSync (msg : string)
| call_InfoSync (req : Payload)
| call_SetOptionSync (key value : string)
| call_DeliverTxSync (tx : Payload)
| call_CheckTxSync (tx : Payload)
| call_QuerySync (req : Payload)
| call_CommitSync
| call_InitChainSync (params : Payload)
| call_BeginBlockSync (params : Payload)
| call_EndBlockSync (height : N).

Definition sync_error (c : sync_call) (w : world) : option (option error * world) :=
  match c with
  | call_FlushSync => FlushSync w
  | call_EchoSync msg => '(_, e, w') ← EchoSync msg w; Some (e, w')
  | call_InfoSync req => '(_, e, w') ← InfoSync req w; Some (e, w')
  | call_SetOptionSync key value => '(_, e, w') ← SetOptionSync key value w; Some (e, w')
  | call_DeliverTxSync tx => '(_, e, w') ← DeliverTxSync tx w; Some (e, w')
  | call_CheckTxSync tx => '(_, e, w') ← CheckTxSync tx w; Some (e, w')
  | call_QuerySync req => '(_, e, w') ← QuerySync req w; Some (e, w')
  | call_CommitSync => '(_, e, w') ← CommitSync w; Some (e, w')
  | call_InitChainSync params => InitChainSync params w
  | call_BeginBlockSync params => BeginBlockSync params w
  | call_EndBlockSync height => '(_, e, w') ← EndBlockSync height w; Some (e, w')
  end.

(** A running client on which [Echo "hi"] has been sent and not answered. *)
Definition client_with_Echo_in_flight : world :=
  let w := started_client in
  match EchoAsync "hi" w with
  | Some (_, w) =>
      match sendRequestsRoutine_iter recv_reqQueue None None w with
      | Some (_, w) => w
      | None => w
      end
  | None => w
  end.

(** The normal path: [Echo "a"] and a [Flush] are submitted, the sender
    task sends both, and the server answers both in order. *)
Definition echo_then_flush : option (ptr * ptr * world) :=
  '(a, w) ← EchoAsync "a" started_client;
  '(f, w) ← FlushAsync w;
  '(_, w) ← sendRequestsRoutine
              [(recv_reqQueue, None, None); (recv_reqQueue, None, None)] w;
  let '(_, w) := recvResponseRoutine
                   [inr (mkResponse (Some (Response_Echo "a")));
                    inr (mkResponse (Some Response_Flush))] w in
  Some (a, f, w).

(** ** Notions used by the further properties *)

(** The handles the client holds: those waiting in the submission queue,
    then those in the in-flight list. *)
Definition tracked (w : world) : list ptr :=
  reqQueue (cli w) ++ reqSent (cli w).

(** The handle is allocated and its completion has not been signalled. *)
Definition pending (reqres : ptr) (w : world) : Prop :=
  exists r, heap w !! reqres = Some r /\ rr_done r = false.

Definition handles_ok (w : world) : Prop :=
  NoDup (tracked w) /\ forall p, In p (tracked w) -> pending p w.

(** The worlds that some execution reaches from a new client. *)
Definition reachable (w : world) : Prop :=
  exists a must acts, run acts (NewSocketClient a must) = Some w.

(** What the sender task does for one handle when the write and the flush
    succeed. *)
Definition send_events (w : world) (reqres : ptr) : list event :=
  let req := deref_Request reqres w in
  reqSent_PushBack reqres :: types_WriteMessage req ::
  match req_Value req with
  | Some Request_Flush => [w_Flush]
  | _ => []
  end.

(** The requests that a run of events writes, in the order of the writes. *)
Definition written (evs : list event) : list Request :=
  omap (fun ev => match ev with types_WriteMessage r => Some r | _ => None end) evs.

(** The handle after a response was stored on it and its completion
    signalled. *)
Definition ReqRes_completed (res : Response) (r : ReqRes) : ReqRes :=
  ReqRes_set_done (ReqRes_set_Response res r).

(** The callbacks that [didRecvResponse] invokes for a handle, in order:
    the handle's own, then the client's listener. *)
Definition callback_events (listener : option Callback) (r : ReqRes)
    (res : Response) : list event :=
  match rr_cb r with Some cb => [call_cb cb res] | None => [] end
  ++ match listener with
     | Some cb => [call_resCb cb (rr_Request r) res]
     | None => []
     end.

(** The world that a matching response leaves: the response is stored on
    the head of the in-flight list and its completion signalled, the head
    is removed from the list, and the callbacks are invoked. *)
Definition complete_head (res : Response) (next : ptr) (rest : list ptr)
    (r : ReqRes) (w : world) : world :=
  emits (callback_events (resCb (cli w)) r res)
    (upd_cli (set_reqSent rest)
       (upd_heap (alter (ReqRes_completed res) next) w)).

(** An answered request: the handle's pointer, the handle as it was, and
    the response that arrives for it. *)
Record answer : Type := mkAnswer {
  ans_ptr : ptr;
  ans_handle : ReqRes;
  ans_Response : Response
}.

(** A running client on which [Echo "a"] and then a [Flush] have been sent
    and not answered. *)
Definition client_with_two_in_flight : world :=
  let w := started_client in
  match EchoAsync "a" w with
  | Some (_, w) =>
      match FlushAsync w with
      | Some (_, w) =>
          match sendRequestsRoutine
                  [(recv_reqQueue, None, None); (recv_reqQueue, None, None)] w with
          | Some (_, w) => w
          | None => w
          end
      | None => w
      end
  | None => w
  end.

(** A running client with [CheckTx "t1"], [CheckTx "t2"] and a [Flush]
    waiting in the submission queue. *)
Definition client_with_three_queued : world :=
  let w := started_client in
  match CheckTxAsync "t1" w with
  | Some (_, w) =>
      match CheckTxAsync "t2" w with
      | Some (_, w) =>
          match FlushAsync w with
          | Some (_, w) => w
          | None => w
          end
      | None => w
      end
  | None => w
  end.

(** The error that an iteration of the sender task latches for the
    outcomes [wr] of the write and [fl] of the flush, if any: a failed
    write, or a failed flush after the write of a [Flush]. *)
Definition sender_failure (wr fl : option error) (req : Request) : option error :=
  match wr with
  | Some e => Some (errorString ("Error writing msg: " +:+ error_Error e))
  | None =>
      match req_Value req, fl with
      | Some Request_Flush, Some e =>
          Some (errorString ("Error flushing writer: " +:+ error_Error e))
      | _, _ => None
      end
  end.

(** The error that an iteration of the receiver task latches without
    looking at the in-flight list, if any: a failed read, or the text of an
    [Exception] response. *)
Definition receiver_failure (rd : error + Response) : option error :=
  match rd with
  | inl e => Some e
  | inr res =>
      match res_Value res with
      | Some (Response_Exception msg) => Some (errorString msg)
      | _ => None
      end
  end.

(** * Properties *)

(** ** The normal path *)

Example echo_then_flush_completes :
  exists a f w,
    echo_then_flush = Some (a, f, w)
    /\ IsRunning w = true
    /\ Error w = None
    /\ reqQueue (cli w) = [] /\ reqSent (cli w) = []
    /\ is_done a w = true /\ GetEcho (deref_Response a w) = Some "a"
    /\ is_done f w = true
    /\ new_events started_client w =
       [reqSent_PushBack a; types_WriteMessage (ToRequestEcho "a");
        reqSent_PushBack f; types_WriteMessage ToRequestFlush; w_Flush].
Proof. eexists _, _, _. split; [vm_compute; reflexivity|]. repeat split. Qed.

(** ** Response/request matching *)

Lemma pairings_tags (t : Tag) : In t pairings <-> t <> Exception.
Proof.
  unfold pairings; split.
  - intros H ->. simpl in H. intuition discriminate.
  - intros H. destruct t; simpl; tauto.
Qed.

Lemma resMatchesReq_true_tags (req : Request) (res : Response) :
  resMatchesReq req res = true ->
  exists t, In t pairings /\ request_tag req = Some t /\ response_tag res = Some t.
Proof.
  destruct req as [[q|]]; [|discriminate].
  destruct res as [[r|]]; [|destruct q; discriminate].
  destruct q, r; cbn; intros H; try discriminate H;
    (eexists; split; [|split; reflexivity]); apply pairings_tags; discriminate.
Qed.

Lemma tags_resMatchesReq_true (req : Request) (res : Response) (t : Tag) :
  In t pairings -> request_tag req = Some t -> response_tag res = Some t ->
  resMatchesReq req res = true.
Proof.
  intros Hin Hq Hr. apply pairings_tags in Hin.
  destruct req as [[q|]]; [|discriminate].
  destruct res as [[r|]]; [|discriminate].
  destruct q; cbn in Hq; injection Hq as <-;
    destruct r; cbn in Hr; try discriminate Hr; try reflexivity;
    congruence.
Qed.

(** C4.  [resMatchesReq req res] is [true] exactly when the request and the
    response carry the same variant tag and that tag is one of the eleven
    pairings (Echo, Flush, Info, SetOption, DeliverTx, CheckTx, Commit,
    Query, InitChain, BeginBlock, EndBlock); for every other pair of
    messages, including an [Exception] response and a message without a
    variant, it is [false]. *)
Theorem resMatchesReq_iff_paired (req : Request) (res : Response) :
  (resMatchesReq req res = true <->
   exists t, In t pairings /\ request_tag req = Some t /\ response_tag res = Some t)
  /\
  (~ (exists t, In t pairings /\ request_tag req = Some t /\ response_tag res = Some t)
   -> resMatchesReq req res = false).
Proof.
  assert (Hiff : resMatchesReq req res = true <->
    exists t, In t pairings /\ request_tag req = Some t /\ response_tag res = Some t).
  { split.
    - apply resMatchesReq_true_tags.
    - intros (t & Hin & Hq & Hr). eapply tags_resMatchesReq_true; eauto. }
  split; [exact Hiff|].
  intros Hno. destruct (resMatchesReq req res) eqn:E; [|reflexivity].
  exfalso. apply Hno, Hiff. reflexivity.
Qed.

(** ** The lifecycle harness *)

Lemma flushQueue_LOOP_cli (q : list ptr) :
  forall w, reqQueue (cli w) = q ->
    cli (flushQueue_LOOP q w) = set_reqQueue [] (cli w).
Proof.
  induction q as [|p q IH]; intros w Hq.
  - destruct w as [c h t], c; cbn in *. subst. reflexivity.
  - cbn [flushQueue_LOOP]. rewrite IH by reflexivity. reflexivity.
Qed.

Lemma flushQueue_cli (w : world) :
  cli (flushQueue w) = set_reqQueue [] (cli w).
Proof. apply flushQueue_LOOP_cli. reflexivity. Qed.

Lemma flushQueue_LOOP_trace (q : list ptr) :
  forall w, trace (flushQueue_LOOP q w) = trace w.
Proof.
  induction q as [|p q IH]; intros w; [reflexivity|].
  cbn [flushQueue_LOOP]. rewrite IH. reflexivity.
Qed.

(** A handle that is not in the submission queue is not touched by the
    drain. *)
Lemma flushQueue_LOOP_heap_other (q : list ptr) (p : ptr) :
  forall w, ~ In p q -> heap (flushQueue_LOOP q w) !! p = heap w !! p.
Proof.
  induction q as [|p' q IH]; intros w Hp; [reflexivity|].
  cbn [flushQueue_LOOP]. rewrite IH by (intros H; apply Hp; right; exact H).
  unfold ReqRes_Done, upd_heap, upd_cli; cbn [heap]. apply list_lookup_alter_ne. intros ->. apply Hp. left. reflexivity.
Qed.

(** Every handle of the heap keeps its request and response through the
    drain, and is done afterwards when it was done before or was queued. *)
Lemma flushQueue_LOOP_heap (q : list ptr) (p : ptr) :
  forall w r, heap w !! p = Some r ->
    exists r', heap (flushQueue_LOOP q w) !! p = Some r'
      /\ rr_Request r' = rr_Request r
      /\ rr_Response r' = rr_Response r
      /\ (rr_done r = true \/ In p q -> rr_done r' = true).
Proof.
  induction q as [|p' q IH]; intros w r Hr.
  - exists r. cbn. repeat split; try assumption. intros [H|[]]. exact H.
  - cbn [flushQueue_LOOP].
    destruct (decide (p' = p)) as [->|Hne].
    + destruct (IH (ReqRes_Done p (upd_cli (set_reqQueue q) w)) (ReqRes_set_done r))
        as (r' & Hl & Hq & Hs & Hd).
      { unfold ReqRes_Done, upd_heap, upd_cli; cbn [heap].
        rewrite list_lookup_alter_eq, Hr. reflexivity. }
      exists r'. repeat split; try assumption.
      intros _. apply Hd. left. reflexivity.
    + destruct (IH (ReqRes_Done p' (upd_cli (set_reqQueue q) w)) r)
        as (r' & Hl & Hq & Hs & Hd).
      { unfold ReqRes_Done, upd_heap, upd_cli; cbn [heap].
        rewrite list_lookup_alter_ne by exact Hne. exact Hr. }
      exists r'. repeat split; try assumption.
      intros [H|[H|H]]; [apply Hd; left; exact H|congruence|apply Hd; right; exact H].
Qed.

Lemma OnStop_cli (w : world) :
  cli (OnStop w) = set_reqQueue [] (set_Quit true (cli w)).
Proof.
  unfold OnStop. rewrite flushQueue_cli.
  destruct (conn (cli (BaseService_OnStop w))); reflexivity.
Qed.

Lemma OnStop_heap_other (w : world) (p : ptr) :
  ~ In p (reqQueue (cli w)) -> heap (OnStop w) !! p = heap w !! p.
Proof.
  intros Hp. unfold OnStop, flushQueue.
  destruct (conn (cli (BaseService_OnStop w)));
    rewrite flushQueue_LOOP_heap_other by exact Hp; reflexivity.
Qed.

Lemma OnStop_trace (w : world) :
  trace (OnStop w) =
  trace w ++ match conn (cli w) with Some c => [conn_Close c] | None => [] end.
Proof.
  unfold OnStop, flushQueue. rewrite flushQueue_LOOP_trace.
  cbn. destruct (conn (cli w)); cbn; [reflexivity|].
  symmetry. apply app_nil_r.
Qed.

Lemma Stop_not_running (w : world) : IsRunning (Stop w) = false.
Proof.
  unfold Stop, IsRunning. destruct (stopped (cli w)) eqn:E.
  - rewrite E. apply andb_false_r.
  - rewrite OnStop_cli. cbn. apply andb_false_r.
Qed.

Lemma Stop_err (w : world) : err (cli (Stop w)) = err (cli w).
Proof.
  unfold Stop. destruct (stopped (cli w)); [reflexivity|].
  rewrite OnStop_cli. reflexivity.
Qed.

Lemma Stop_reqSent (w : world) : reqSent (cli (Stop w)) = reqSent (cli w).
Proof.
  unfold Stop. destruct (stopped (cli w)); [reflexivity|].
  rewrite OnStop_cli. reflexivity.
Qed.

Lemma Stop_heap_other (w : world) (p : ptr) :
  ~ In p (reqQueue (cli w)) -> heap (Stop w) !! p = heap w !! p.
Proof.
  intros Hp. unfold Stop. destruct (stopped (cli w)); [reflexivity|].
  rewrite OnStop_heap_other by exact Hp. reflexivity.
Qed.

Lemma StopForError_not_running_after (e : error) (w : world) :
  IsRunning (StopForError e w) = false.
Proof.
  unfold StopForError. destruct (IsRunning w) eqn:E; cbn [negb].
  - apply Stop_not_running.
  - exact E.
Qed.

(** The latch is first-writer-wins: a latched error survives
    [StopForError]. *)
Lemma StopForError_err_latched (e e0 : error) (w : world) :
  err (cli w) = Some e0 -> err (cli (StopForError e w)) = Some e0.
Proof.
  intros H. unfold StopForError. destruct (IsRunning w); cbn [negb]; [|exact H].
  rewrite Stop_err. cbn. rewrite H. cbn. exact H.
Qed.

Lemma StopForError_err_running (e : error) (w : world) :
  IsRunning w = true -> err (cli w) = None ->
  err (cli (StopForError e w)) = Some e.
Proof.
  intros Hr He. unfold StopForError. rewrite Hr. cbn [negb].
  rewrite Stop_err. cbn. rewrite He. reflexivity.
Qed.

(** What a running client looks like after [StopForError]. *)
Lemma StopForError_running_cli (e : error) (w : world) :
  IsRunning w = true ->
  cli (StopForError e w) =
  set_reqQueue [] (set_Quit true (set_stopped true
    (match err (cli w) with
     | None => set_err (Some e) (cli w)
     | Some _ => cli w
     end))).
Proof.
  intros Hr. unfold StopForError. rewrite Hr. cbn [negb].
  unfold IsRunning in Hr. apply andb_true_iff in Hr as [_ Hs].
  apply negb_true_iff in Hs.
  unfold Stop.
  destruct (err (cli w)) eqn:He; cbn; rewrite Hs, OnStop_cli; reflexivity.
Qed.

(** C10.  When the client is not running, [StopForError err] returns at
    once: the world it leaves is the world it found, so [err] is not
    latched and [Error] returns what it returned before.  In particular a
    stopped client stores no further error. *)
Theorem StopForError_when_not_running (e : error) (w : world) :
  IsRunning w = false ->
  StopForError e w = w
  /\ err (cli (StopForError e w)) = err (cli w)
  /\ Error (StopForError e w) = Error w
  /\ (forall w0, StopForError e (Stop w0) = Stop w0).
Proof.
  intros Hr.
  assert (H : forall v, IsRunning v = false -> StopForError e v = v).
  { intros v Hv. unfold StopForError. rewrite Hv. reflexivity. }
  rewrite (H w Hr). repeat split.
  intros w0. apply H, Stop_not_running.
Qed.

Lemma StopForError_when_not_running_witness :
  let w := Stop (NewSocketClient "tcp://127.0.0.1:46658" true) in
  IsRunning w = false
  /\ StopForError (errorString "EOF") w = w
  /\ Error (StopForError (errorString "EOF") w) = None.
Proof.
  cbv zeta.
  split; [reflexivity|].
  destruct (StopForError_when_not_running (errorString "EOF")
              (Stop (NewSocketClient "tcp://127.0.0.1:46658" true)))
    as (H1 & _ & H3 & _); [reflexivity|].
  split; [exact H1|]. rewrite H3. reflexivity.
Defined.

(** ** Shutdown and the handles *)

(** A handle that was sent and not answered is in the in-flight list only;
    [Stop] leaves it as it was. *)
Lemma Stop_leaves_inflight (w : world) (p : ptr) :
  In p (reqSent (cli w)) -> ~ In p (reqQueue (cli w)) ->
  In p (reqSent (cli (Stop w))) /\ is_done p (Stop w) = is_done p w.
Proof.
  intros Hs Hq. rewrite Stop_reqSent. split; [exact Hs|].
  unfold is_done. rewrite Stop_heap_other by exact Hq. reflexivity.
Qed.

(** A handle that is still in the submission queue is signalled by the
    first [Stop]. *)
Lemma Stop_releases_queued (w : world) (p : ptr) (r : ReqRes) :
  stopped (cli w) = false -> In p (reqQueue (cli w)) -> heap w !! p = Some r ->
  is_done p (Stop w) = true /\ reqQueue (cli (Stop w)) = [].
Proof.
  intros Hst Hq Hr. unfold Stop. rewrite Hst. rewrite OnStop_cli. split; [|reflexivity].
  unfold OnStop, flushQueue, is_done.
  set (w1 := match conn (cli (BaseService_OnStop (upd_cli (set_stopped true) w))) with
             | Some c => emit (conn_Close c) (BaseService_OnStop (upd_cli (set_stopped true) w))
             | None => BaseService_OnStop (upd_cli (set_stopped true) w)
             end).
  assert (Hc : reqQueue (cli w1) = reqQueue (cli w) /\ heap w1 = heap w).
  { unfold w1. destruct (conn _); split; reflexivity. }
  destruct Hc as [Hc Hh].
  destruct (flushQueue_LOOP_heap (reqQueue (cli w1)) p w1 r) as (r' & Hl & _ & _ & Hd).
  { rewrite Hh. exact Hr. }
  rewrite Hl. apply Hd. right. rewrite Hc. exact Hq.
Qed.

Lemma queueRequest_Some (req : Request) (w w' : world) (reqres : ptr) :
  queueRequest req w = Some (reqres, w') ->
  reqres = length (heap w)
  /\ heap w' = heap w ++ [ReqRes_fresh req]
  /\ reqQueue (cli w') = reqQueue (cli w) ++ [reqres].
Proof.
  unfold queueRequest, NewReqRes. cbn [cli upd_heap].
  destruct (Nat.ltb (length (reqQueue (cli w))) reqQueueSize); [|discriminate].
  intros H. injection H as <- <-.
  destruct req as [[[]|]]; repeat split.
Qed.

Lemma parked_frame (reqres : ptr) (w w' : world) :
  heap w' = heap w -> reqQueue (cli w') = reqQueue (cli w) ->
  parked reqres w -> parked reqres w'.
Proof. unfold parked. intros -> ->. tauto. Qed.

Lemma parked_fresh (reqres : ptr) (r : ReqRes) (w w' : world) :
  heap w' = heap w ++ [r] ->
  reqQueue (cli w') = reqQueue (cli w) ++ [length (heap w)]
  \/ reqQueue (cli w') = reqQueue (cli w) ->
  parked reqres w -> parked reqres w'.
Proof.
  intros Hh Hq [(r0 & Hr & Hd) Hn]. split.
  - exists r0. rewrite Hh. split; [apply lookup_app_l_Some; exact Hr|exact Hd].
  - destruct Hq as [-> | ->]; [|exact Hn].
    rewrite in_app_iff. intros [H|[H|[]]]; [exact (Hn H)|].
    apply lookup_lt_Some in Hr. lia.
Qed.

Lemma Stop_parked (reqres : ptr) (w : world) :
  parked reqres w -> parked reqres (Stop w).
Proof.
  intros [(r & Hr & Hd) Hn]. split.
  - exists r. rewrite Stop_heap_other by exact Hn. split; assumption.
  - unfold Stop. destruct (stopped (cli w)); [exact Hn|].
    rewrite OnStop_cli. cbn. tauto.
Qed.

Lemma StopForError_parked (e : error) (reqres : ptr) (w : world) :
  parked reqres w -> parked reqres (StopForError e w).
Proof.
  intros H. unfold StopForError. destruct (negb (IsRunning w)); [exact H|].
  apply Stop_parked. destruct (err (cli w)); exact H.
Qed.

Lemma RETRY_LOOP_frame (dial : nat -> error + Conn) (fuel : nat) :
  forall k w,
    heap (snd (RETRY_LOOP fuel dial k w)) = heap w
    /\ reqQueue (cli (snd (RETRY_LOOP fuel dial k w))) = reqQueue (cli w).
Proof.
  induction fuel as [|fuel IH]; intros k w; [split; reflexivity|].
  cbn [RETRY_LOOP]. destruct (dial k) as [e|c]; [|split; reflexivity].
  cbn [cli emit]. destruct (mustConnect (cli w)); [split; reflexivity|].
  destruct (IH (S k) (emit (time_Sleep (time_Second * 3))
                        (emit (Logger_Error
                                 ("abci.socketClient failed to connect to "
                                  +:+ addr (cli w) +:+ ".  Retrying..."))
                           (emit (cmn_Connect (addr (cli w))) w)))) as [H1 H2].
  split; [rewrite H1|rewrite H2]; reflexivity.
Qed.

Lemma Start_parked (base : option error) (fuel : nat) (dial : nat -> error + Conn)
    (reqres : ptr) (w : world) :
  parked reqres w -> parked reqres (snd (Start base fuel dial w)).
Proof.
  intros H. unfold Start. destruct (started (cli w) || stopped (cli w)); [exact H|].
  unfold OnStart. destruct base as [e|]; [exact H|].
  destruct (RETRY_LOOP_frame dial fuel 0 (upd_cli (set_started true) w)) as [H1 H2].
  destruct (RETRY_LOOP fuel dial 0 (upd_cli (set_started true) w)) as [[|[e|]] w1];
    cbn [snd] in *; (eapply parked_frame; [| |exact H]); assumption.
Qed.

(** As long as no response is handed to [didRecvResponse], a parked handle
    stays parked: the sender task, the shutdown and the receiver task
    ending on an error or an exception never signal it. *)
Lemma perform_parked (a : action) (reqres : ptr) (w w' : world) :
  delivers a = false -> perform a w = Some w' ->
  parked reqres w -> parked reqres w'.
Proof.
  intros Hq Hp H. destruct a as [req|c wr fl|rd|base fuel dial| |f]; cbn [perform] in Hp.
  - destruct (queueRequest req w) as [[p w1]|] eqn:E; [|discriminate].
    injection Hp as <-. apply queueRequest_Some in E as (-> & Hh & Hl).
    eapply parked_fresh; [exact Hh|left; exact Hl|exact H].
  - destruct (sendRequestsRoutine_iter c wr fl w) as [[k w1]|] eqn:E; [|discriminate].
    injection Hp as <-. destruct c; unfold sendRequestsRoutine_iter in E.
    + destruct (flushTimer (cli w)); [|discriminate].
      unfold case_flushTimer, NewReqRes in E.
      match type of E with
      | context [if ?b then _ else _] => destruct b
      end; injection E as _ <-.
      * eapply parked_fresh; [reflexivity|left; reflexivity|exact H].
      * eapply parked_fresh; [reflexivity|right; reflexivity|exact H].
    + destruct (Quit (cli w)); [|discriminate]. injection E as _ <-. exact H.
    + destruct (reqQueue (cli w)) as [|p q] eqn:Eq; [discriminate|].
      injection E as E.
      assert (H0 : parked reqres (willSendReq p (upd_cli (set_reqQueue q) w))).
      { destruct H as [Hr Hn]. split; [exact Hr|].
        cbn. intros Hin. apply Hn. rewrite Eq. right. exact Hin. }
      unfold case_reqQueue, write_and_flush in E.
      destruct wr as [e|].
      { injection E as _ <-. apply StopForError_parked. exact H0. }
      destruct (req_Value _) as [[]|]; try (injection E as _ <-; exact H0).
      destruct fl as [e|]; injection E as _ <-;
        [apply StopForError_parked|]; exact H0.
  - injection Hp as <-. destruct rd as [e|res]; cbn [recvResponseRoutine_iter snd].
    + apply StopForError_parked. exact H.
    + cbn in Hq. destruct (res_Value res) as [[]|]; try discriminate Hq.
      cbn [snd]. apply StopForError_parked. exact H.
  - injection Hp as <-. apply Start_parked. exact H.
  - injection Hp as <-. apply Stop_parked. exact H.
  - injection Hp as <-. exact H.
Qed.

Lemma run_parked (reqres : ptr) (acts : list action) :
  forall w w',
    forallb (fun a => negb (delivers a)) acts = true ->
    run acts w = Some w' -> parked reqres w -> parked reqres w'.
Proof.
  induction acts as [|a acts IH]; intros w w' Hq Hrun H.
  - injection Hrun as <-. exact H.
  - cbn [forallb] in Hq. apply andb_true_iff in Hq as [Ha Hq].
    apply negb_true_iff in Ha.
    cbn [run] in Hrun. destruct (perform a w) as [w1|] eqn:Hp; [|discriminate].
    eapply IH; [exact Hq|exact Hrun|]. eapply perform_parked; eassumption.
Qed.

Lemma parked_Wait (reqres : ptr) (w : world) :
  parked reqres w -> is_done reqres w = false /\ ReqRes_Wait reqres w = None.
Proof.
  intros [(r & Hr & Hd) _]. unfold is_done, ReqRes_Wait. rewrite Hr, Hd.
  split; reflexivity.
Qed.

(** C1 (the code at the failing input).  After [Stop] has completed in the
    execution above, the handle that was in the submission queue is done,
    but the handle in the in-flight list is still there and not done.  A
    caller in [Wait] on it is parked, and stays parked however the
    execution goes on, unless a response is still handed to
    [didRecvResponse] after the shutdown: neither a repeated [Stop], nor
    the sender task, nor the receiver task ending on a read error or on an
    exception signals the handle. *)
Theorem stop_leaves_inflight_handle_waiting :
  exists a b w,
    stop_with_request_in_flight = Some (a, b, w)
    /\ IsRunning w = false
    /\ reqQueue (cli w) = []
    /\ is_done b w = true
    /\ reqSent (cli w) = [a]
    /\ is_done a w = false
    /\ ReqRes_Wait a w = None
    /\ (forall acts w',
          forallb (fun x => negb (delivers x)) acts = true ->
          run acts w = Some w' ->
          is_done a w' = false /\ ReqRes_Wait a w' = None).
Proof.
  exists 0, 1.
  eexists. split; [vm_compute; reflexivity|].
  repeat split; try reflexivity;
    (eapply parked_Wait, run_parked; [eassumption|eassumption|]);
    (split; [eexists; split; reflexivity|intros []]).
Qed.

(** ** Submission *)

Lemma queueRequest_full (req : Request) (w : world) :
  reqQueueSize <= length (reqQueue (cli w)) -> queueRequest req w = None.
Proof.
  intros H. unfold queueRequest, NewReqRes. cbn [cli upd_heap].
  destruct (Nat.ltb_spec (length (reqQueue (cli w))) reqQueueSize); [lia|reflexivity].
Qed.

Lemma queueRequest_room (req : Request) (w : world) :
  length (reqQueue (cli w)) < reqQueueSize ->
  queueRequest req w =
  Some (length (heap w),
        upd_cli (set_flushTimer
                   (match req_Value req with Some Request_Flush => false | _ => true end))
          (upd_cli (fun c => set_reqQueue (reqQueue c ++ [length (heap w)]) c)
             (upd_heap (fun h => h ++ [ReqRes_fresh req]) w))).
Proof.
  intros H. unfold queueRequest, NewReqRes. cbn [cli upd_heap].
  destruct (Nat.ltb_spec (length (reqQueue (cli w))) reqQueueSize); [|lia].
  destruct req as [[[]|]]; reflexivity.
Qed.

(** C7.  A request submitted through [queueRequest] while the submission
    queue has room is wrapped in a freshly constructed handle, which is
    appended to the queue; the flush timer is unset when the request is a
    [Flush] and set otherwise; and the pointer to that handle is what the
    caller gets back. *)
Theorem queueRequest_enqueues_and_arms (req : Request) (w : world) :
  length (reqQueue (cli w)) < reqQueueSize ->
  exists reqres w',
    queueRequest req w = Some (reqres, w')
    /\ heap w !! reqres = None
    /\ heap w' = heap w ++ [ReqRes_fresh req]
    /\ heap w' !! reqres = Some (ReqRes_fresh req)
    /\ reqQueue (cli w') = reqQueue (cli w) ++ [reqres]
    /\ (request_tag req = Some Flush -> flushTimer (cli w') = false)
    /\ (request_tag req <> Some Flush -> flushTimer (cli w') = true)
    /\ reqSent (cli w') = reqSent (cli w)
    /\ err (cli w') = err (cli w)
    /\ trace w' = trace w.
Proof.
  intros H. eexists _, _. split; [apply queueRequest_room; exact H|].
  cbn. repeat split.
  - apply lookup_ge_None. lia.
  - apply list_lookup_middle. reflexivity.
  - destruct req as [[[]|]]; cbn; intros; congruence.
  - destruct req as [[[]|]]; cbn; intros; congruence.
Qed.

Lemma queueRequest_enqueues_and_arms_witness :
  exists reqres w',
    queueRequest (ToRequestDeliverTx "tx")
      (NewSocketClient "tcp://127.0.0.1:46658" true) = Some (reqres, w')
    /\ reqQueue (cli w') = [reqres]
    /\ flushTimer (cli w') = true.
Proof.
  destruct (queueRequest_enqueues_and_arms (ToRequestDeliverTx "tx")
              (NewSocketClient "tcp://127.0.0.1:46658" true))
    as (reqres & w' & Hq & _ & _ & _ & Hl & _ & Hset & _).
  { cbn. unfold reqQueueSize. lia. }
  exists reqres, w'. split; [exact Hq|]. split; [exact Hl|].
  apply Hset. discriminate.
Defined.

(** ** The flush timer in the sender task *)

(** C8.  When the flush timer fires, the sender task constructs one
    [ReqRes(Flush)] and offers it to the submission queue without blocking:
    with room in the queue exactly that handle is appended; with a full
    queue the client is left as it was, the handle being dropped; either way
    the loop continues, no error is latched, nothing is written and the
    client keeps running. *)
Theorem flushTimer_fire_offers_one_Flush (wr fl : option error) (w : world) :
  flushTimer (cli w) = true ->
  exists w',
    sendRequestsRoutine_iter recv_flushTimer wr fl w = Some (Continue, w')
    /\ heap w' = heap w ++ [ReqRes_fresh ToRequestFlush]
    /\ (length (reqQueue (cli w)) < reqQueueSize ->
        reqQueue (cli w') = reqQueue (cli w) ++ [length (heap w)])
    /\ (reqQueueSize <= length (reqQueue (cli w)) ->
        cli w' = set_flushTimer false (cli w))
    /\ err (cli w') = err (cli w)
    /\ reqSent (cli w') = reqSent (cli w)
    /\ IsRunning w' = IsRunning w
    /\ trace w' = trace w.
Proof.
  intros Ht. unfold sendRequestsRoutine_iter. rewrite Ht.
  unfold case_flushTimer, NewReqRes. cbn [cli upd_heap flushTimer_Unset upd_cli].
  destruct (Nat.ltb_spec (length (reqQueue (set_flushTimer false (cli w)))) reqQueueSize)
    as [Hlt|Hge].
  - cbn in Hlt. eexists. split; [reflexivity|]. cbn. repeat split. intros; lia.
  - cbn in Hge. eexists. split; [reflexivity|]. cbn. repeat split. intros; lia.
Qed.

Lemma flushTimer_fire_offers_one_Flush_witness :
  exists a w0 w',
    EchoAsync "x" (NewSocketClient "tcp://127.0.0.1:46658" true) = Some (a, w0)
    /\ sendRequestsRoutine_iter recv_flushTimer None None w0 = Some (Continue, w')
    /\ reqQueue (cli w') = [a; length (heap w0)]
    /\ deref_Request (length (heap w0)) w' = ToRequestFlush.
Proof.
  eexists _, _. 
  destruct (flushTimer_fire_offers_one_Flush None None
              (upd_cli (set_flushTimer true)
                 (upd_cli (fun c => set_reqQueue (reqQueue c ++ [0]) c)
                    (upd_heap (fun h => h ++ [ReqRes_fresh (ToRequestEcho "x")])
                       (NewSocketClient "tcp://127.0.0.1:46658" true)))))
    as (w' & Hs & Hh & Hroom & _).
  { reflexivity. }
  exists w'. split; [reflexivity|]. split; [exact Hs|].
  split.
  - apply Hroom. cbn. unfold reqQueueSize. lia.
  - unfold deref_Request. rewrite Hh. reflexivity.
Defined.

(** ** The trace of the sender task *)

Lemma new_events_app (w w' : world) (evs : list event) :
  trace w' = trace w ++ evs -> new_events w w' = evs.
Proof. intros H. unfold new_events. rewrite H. apply drop_app_length. Qed.

Lemma StopForError_trace (e : error) (w : world) :
  trace (StopForError e w) = trace w ++ StopForError_events e w.
Proof.
  unfold StopForError, StopForError_events.
  destruct (IsRunning w) eqn:Hr; cbn [negb]; [|symmetry; apply app_nil_r].
  unfold IsRunning in Hr. apply andb_true_iff in Hr as [_ Hs].
  apply negb_true_iff in Hs.
  unfold Stop.
  destruct (err (cli w)); cbn; rewrite Hs, OnStop_trace; cbn;
    rewrite <- app_assoc; reflexivity.
Qed.

Lemma StopForError_events_emit (e : error) (ev : event) (w : world) :
  StopForError_events e (emit ev w) = StopForError_events e w.
Proof. reflexivity. Qed.

Lemma StopForError_events_stop (e : error) (w : world) :
  forallb is_stop_event (StopForError_events e w) = true.
Proof.
  unfold StopForError_events.
  destruct (negb (IsRunning w)); [reflexivity|].
  destruct (conn (cli w)); reflexivity.
Qed.

Lemma stop_events_In (ev : event) (l : list event) :
  forallb is_stop_event l = true -> In ev l -> is_stop_event ev = true.
Proof. intros H Hin. rewrite forallb_forall in H. apply H, Hin. Qed.

Lemma case_reqQueue_trace (wr fl : option error) (reqres : ptr) (w : world) :
  trace (snd (case_reqQueue wr fl reqres w)) =
  trace w ++ case_reqQueue_events wr fl reqres w.
Proof.
  unfold case_reqQueue, write_and_flush, case_reqQueue_events.
  change (deref_Request reqres (willSendReq reqres w)) with (deref_Request reqres w).
  destruct wr as [e|].
  - cbn [snd]. rewrite StopForError_trace. cbn.
    rewrite <- !app_assoc. reflexivity.
  - destruct (req_Value (deref_Request reqres w)) as [[]|];
      cbn [snd]; try (cbn; rewrite <- !app_assoc; reflexivity).
    destruct fl as [e|].
    + cbn [snd]. rewrite StopForError_trace. cbn.
      rewrite <- !app_assoc. reflexivity.
    + cbn. rewrite <- !app_assoc. reflexivity.
Qed.

Lemma case_reqQueue_new_events (wr fl : option error) (reqres : ptr) (w : world) :
  new_events w (snd (case_reqQueue wr fl reqres w)) =
  case_reqQueue_events wr fl reqres w.
Proof. apply new_events_app, case_reqQueue_trace. Qed.

Lemma request_tag_Flush (req : Request) :
  request_tag req = Some Flush <-> req_Value req = Some Request_Flush.
Proof. destruct req as [[[]|]]; cbn; split; congruence. Qed.

(** C6.  In the sender task, once the frame of a request has been written
    to the buffered writer, [w.Flush] is called exactly when the request is
    a [Flush], and then directly after the write; a request of any other
    variant never makes the sender flush the writer.  (A write that fails
    ends the task before any flush.) *)
Theorem sender_flushes_iff_Flush (wr fl : option error) (reqres : ptr) (w : world) :
  let req := deref_Request reqres w in
  let evs := new_events w (snd (case_reqQueue wr fl reqres w)) in
  (wr = None -> (In w_Flush evs <-> request_tag req = Some Flush))
  /\ (wr = None -> request_tag req = Some Flush ->
      exists tail, evs = [reqSent_PushBack reqres; types_WriteMessage req; w_Flush] ++ tail
                   /\ ~ In w_Flush tail)
  /\ (request_tag req <> Some Flush -> ~ In w_Flush evs)
  /\ (wr <> None -> ~ In w_Flush evs).
Proof.
  cbv zeta. rewrite case_reqQueue_new_events. unfold case_reqQueue_events.
  assert (Hstop : forall e, ~ In w_Flush (StopForError_events e w)).
  { intros e Hin.
    apply (stop_events_In _ _ (StopForError_events_stop e w)) in Hin.
    discriminate Hin. }
  repeat split.
  - intros Hin. subst wr. apply request_tag_Flush.
    destruct (req_Value (deref_Request reqres w)) as [[]|];
      try reflexivity; cbn in Hin; intuition discriminate.
  - intros Ht. subst wr. apply request_tag_Flush in Ht. rewrite Ht.
    right. right. left. reflexivity.
  - intros -> Ht. apply request_tag_Flush in Ht. rewrite Ht.
    eexists. split; [reflexivity|].
    destruct fl; [apply Hstop|intros []].
  - intros Ht Hin. rewrite request_tag_Flush in Ht.
    destruct Hin as [Hin|[Hin|Hin]]; try discriminate Hin.
    destruct wr as [e|]; [exact (Hstop _ Hin)|].
    destruct (req_Value (deref_Request reqres w)) as [[]|];
      try (destruct Hin); congruence.
  - intros Hw Hin. destruct wr as [e|]; [|congruence].
    destruct Hin as [Hin|[Hin|Hin]]; try discriminate Hin.
    exact (Hstop _ Hin).
Qed.

Lemma sender_flushes_iff_Flush_witness :
  exists a w0 b w1,
    EchoAsync "x" (NewSocketClient "tcp://127.0.0.1:46658" true) = Some (a, w0)
    /\ FlushAsync w0 = Some (b, w1)
    /\ ~ In w_Flush (new_events w1 (snd (case_reqQueue None None a w1)))
    /\ In w_Flush (new_events w1 (snd (case_reqQueue None None b w1))).
Proof.
  eexists _, _, _, _.
  split; [reflexivity|]. split; [reflexivity|].
  split.
  - match goal with
    | |- ~ In _ (new_events ?w (snd (case_reqQueue _ _ ?a _))) =>
        pose proof (sender_flushes_iff_Flush None None a w) as H
    end.
    cbv zeta in H. destruct H as (_ & _ & Hno & _).
    apply Hno. discriminate.
  - match goal with
    | |- In _ (new_events ?w (snd (case_reqQueue _ _ ?b _))) =>
        pose proof (sender_flushes_iff_Flush None None b w) as H
    end.
    cbv zeta in H. destruct H as (Hiff & _).
    apply Hiff; reflexivity.
Defined.

(** C9.  When the sender task takes a handle from the submission queue, the
    handle is appended to the in-flight list before [types.WriteMessage] is
    called on its request: the write runs in the world that [willSendReq]
    left, whose in-flight list ends with the handle, and in the trace the
    append comes first and the one write directly after it. *)
Theorem sender_appends_before_write (wr fl : option error) (reqres : ptr)
    (q : list ptr) (w : world) :
  reqQueue (cli w) = reqres :: q ->
  let w0 := upd_cli (set_reqQueue q) w in
  let w1 := willSendReq reqres w0 in
  let req := deref_Request reqres w in
  exists k w' tail,
    sendRequestsRoutine_iter recv_reqQueue wr fl w = Some (k, w')
    /\ (k, w') = write_and_flush wr fl reqres w1
    /\ reqSent (cli w1) = reqSent (cli w) ++ [reqres]
    /\ new_events w w1 = [reqSent_PushBack reqres]
    /\ new_events w w' = reqSent_PushBack reqres :: types_WriteMessage req :: tail
    /\ (forall r, ~ In (types_WriteMessage r) tail)
    /\ (forall p, ~ In (reqSent_PushBack p) tail).
Proof.
  intros Hq. cbv zeta. unfold sendRequestsRoutine_iter. rewrite Hq.
  destruct (case_reqQueue wr fl reqres (upd_cli (set_reqQueue q) w)) as [k w'] eqn:E.
  pose proof (case_reqQueue_trace wr fl reqres (upd_cli (set_reqQueue q) w)) as Ht.
  rewrite E in Ht. cbn [snd] in Ht.
  exists k, w'. eexists. split; [reflexivity|]. split; [exact (eq_sym E)|].
  split; [reflexivity|]. split.
  { apply new_events_app. reflexivity. }
  split.
  { apply new_events_app. exact Ht. }
  assert (Hstop : forall e ev, is_stop_event ev = false ->
            ~ In ev (StopForError_events e (upd_cli (set_reqQueue q) w))).
  { intros e ev Hev Hin.
    apply (stop_events_In _ _ (StopForError_events_stop e _)) in Hin. congruence. }
  split; intros x Hin.
  - destruct wr as [e|]; [(refine (Hstop _ _ _ Hin); reflexivity)|].
    destruct (req_Value (deref_Request reqres (upd_cli (set_reqQueue q) w))) as [[]|];
      try (destruct Hin; fail).
    destruct Hin as [Hin|Hin]; [discriminate Hin|].
    destruct fl as [e|]; [(refine (Hstop _ _ _ Hin); reflexivity)|destruct Hin].
  - destruct wr as [e|]; [(refine (Hstop _ _ _ Hin); reflexivity)|].
    destruct (req_Value (deref_Request reqres (upd_cli (set_reqQueue q) w))) as [[]|];
      try (destruct Hin; fail).
    destruct Hin as [Hin|Hin]; [discriminate Hin|].
    destruct fl as [e|]; [(refine (Hstop _ _ _ Hin); reflexivity)|destruct Hin].
Qed.

Lemma sender_appends_before_write_witness :
  let w := upd_cli (set_reqQueue [0])
             (upd_heap (fun _ => [ReqRes_fresh (ToRequestEcho "x")])
                (NewSocketClient "tcp://127.0.0.1:46658" true)) in
  exists k w' tail,
    sendRequestsRoutine_iter recv_reqQueue None None w = Some (k, w')
    /\ new_events w w' =
       reqSent_PushBack 0 :: types_WriteMessage (ToRequestEcho "x") :: tail.
Proof.
  intros w.
  destruct (sender_appends_before_write None None 0 [] w eq_refl)
    as (k & w' & tail & Hs & _ & _ & _ & Hev & _).
  exists k, w', tail. split; [exact Hs|exact Hev].
Defined.

(** ** Start: the connect policy *)

Lemma emits_app (evs1 evs2 : list event) (w : world) :
  emits (evs1 ++ evs2) w = emits evs2 (emits evs1 w).
Proof. apply foldl_app. Qed.

Lemma emits_cli (evs : list event) : forall w, cli (emits evs w) = cli w.
Proof.
  induction evs as [|e evs IH]; intros w; [reflexivity|].
  change (emits (e :: evs) w) with (emits evs (emit e w)). rewrite IH. reflexivity.
Qed.

Lemma emits_heap (evs : list event) : forall w, heap (emits evs w) = heap w.
Proof.
  induction evs as [|e evs IH]; intros w; [reflexivity|].
  change (emits (e :: evs) w) with (emits evs (emit e w)). rewrite IH. reflexivity.
Qed.

Lemma emits_trace (evs : list event) : forall w, trace (emits evs w) = trace w ++ evs.
Proof.
  induction evs as [|e evs IH]; intros w.
  - symmetry. apply app_nil_r.
  - change (emits (e :: evs) w) with (emits evs (emit e w)).
    rewrite IH. cbn. rewrite <- app_assoc. reflexivity.
Qed.

Lemma retries_no_go (n : nat) (a : string) (g : goroutine) (c : Conn) :
  ~ In (go_stmt g c) (retries n a).
Proof.
  induction n as [|n IH]; cbn; [tauto|].
  intros [H|[H|[H|H]]]; try discriminate H. exact (IH H).
Qed.

Lemma RETRY_LOOP_failures (dial : nat -> error + Conn) (fuel n : nat) :
  forall k w,
    mustConnect (cli w) = false ->
    (forall j, j < n -> exists e, dial (k + j) = inl e) ->
    RETRY_LOOP (n + fuel) dial k w =
    RETRY_LOOP fuel dial (k + n) (emits (retries n (addr (cli w))) w).
Proof.
  induction n as [|n IH]; intros k w Hm Hfail.
  - cbn. rewrite Nat.add_0_r. reflexivity.
  - cbn [Nat.add RETRY_LOOP].
    destruct (Hfail 0) as [e He]; [lia|]. rewrite Nat.add_0_r in He. rewrite He.
    cbn [cli emit]. rewrite Hm.
    rewrite IH.
    + cbn [retries]. rewrite emits_app. cbn [cli emit].
      replace (S k + n) with (k + S n) by lia. reflexivity.
    + exact Hm.
    + intros j Hj. destruct (Hfail (S j)) as [e' He']; [lia|].
      exists e'. rewrite <- He'. f_equal. lia.
Qed.

(** C5.  With [mustConnect] set, a failed first connect makes [OnStart]
    return the connect error, having neither stored a connection nor
    started a task.  Without it, every failed connect is followed by a
    three-second sleep and another attempt: after [n] failures and a
    success the connection is stored and the sender and receiver tasks are
    started, in that order and only then; and while the connects keep
    failing [OnStart] keeps looping and starts no task. *)
Theorem OnStart_connect_policy (dial : nat -> error + Conn) (w : world) :
  let a := addr (cli w) in
  (mustConnect (cli w) = true ->
   forall e fuel, dial 0 = inl e ->
     OnStart None (S fuel) dial w = (returned (Some e), emit (cmn_Connect a) w))
  /\ (mustConnect (cli w) = false ->
      forall n c, (forall j, j < n -> exists e, dial j = inl e) -> dial n = inr c ->
        (forall fuel, n < fuel ->
           OnStart None fuel dial w =
           (returned None,
            emits [go_stmt sendRequestsRoutine_go c; go_stmt recvResponseRoutine_go c]
              (upd_cli (set_conn (Some c))
                 (emits (retries n a ++ [cmn_Connect a]) w))))
        /\ (forall fuel, fuel <= n ->
              OnStart None fuel dial w = (looping, emits (retries fuel a) w)))
  /\ (mustConnect (cli w) = false ->
      (forall j, exists e, dial j = inl e) ->
      forall fuel, OnStart None fuel dial w = (looping, emits (retries fuel a) w))
  /\ (forall n g c, ~ In (go_stmt g c) (retries n a)).
Proof.
  cbv zeta. unfold OnStart.
  assert (Hloop : mustConnect (cli w) = false ->
            forall fuel, (forall j, j < fuel -> exists e, dial j = inl e) ->
              RETRY_LOOP fuel dial 0 w = (looping, emits (retries fuel (addr (cli w))) w)).
  { intros Hm fuel Hfail.
    replace fuel with (fuel + 0) at 1 by lia.
    rewrite RETRY_LOOP_failures by assumption. reflexivity. }
  split; [|split; [|split]].
  - intros Hm e fuel He. cbn. rewrite He, Hm. reflexivity.
  - intros Hm n c Hfail Hok. split.
    + intros fuel Hlt.
      replace fuel with (n + S (fuel - S n)) by lia.
      rewrite RETRY_LOOP_failures by assumption.
      cbn [RETRY_LOOP Nat.add]. rewrite Hok.
      rewrite emits_app. cbn [emits foldl]. rewrite emits_cli. reflexivity.
    + intros fuel Hle. apply Hloop; [exact Hm|].
      intros j Hj. apply Hfail. lia.
  - intros Hm Hfail fuel. apply Hloop; [exact Hm|]. intros j _. apply Hfail.
  - intros n g c. apply retries_no_go.
Qed.

Lemma OnStart_connect_policy_witness :
  let refused := errorString "dial tcp 127.0.0.1:46658: connection refused" in
  let later := fun k : nat => if (k <? 2)%nat then inl refused else inr 1%nat in
  fst (OnStart None 1 (fun _ => inl refused)
         (NewSocketClient "tcp://127.0.0.1:46658" true)) = returned (Some refused)
  /\ fst (OnStart None 3 later (NewSocketClient "tcp://127.0.0.1:46658" false))
     = returned None
  /\ fst (OnStart None 2 later (NewSocketClient "tcp://127.0.0.1:46658" false))
     = looping
  /\ fst (OnStart None 5 (fun _ => inl refused)
            (NewSocketClient "tcp://127.0.0.1:46658" false)) = looping.
Proof.
  intros refused later.
  split; [|split; [|split]].
  - destruct (OnStart_connect_policy (fun _ => inl refused)
                (NewSocketClient "tcp://127.0.0.1:46658" true)) as (H & _).
    rewrite (H eq_refl refused 0 eq_refl). reflexivity.
  - destruct (OnStart_connect_policy later
                (NewSocketClient "tcp://127.0.0.1:46658" false)) as (_ & H & _).
    destruct (H eq_refl 2 1) as (H1 & _).
    + intros j Hj. exists refused. unfold later.
      destruct j as [|[|j]]; [reflexivity|reflexivity|lia].
    + reflexivity.
    + rewrite (H1 3) by lia. reflexivity.
  - destruct (OnStart_connect_policy later
                (NewSocketClient "tcp://127.0.0.1:46658" false)) as (_ & H & _).
    destruct (H eq_refl 2 1) as (_ & H2).
    + intros j Hj. exists refused. unfold later.
      destruct j as [|[|j]]; [reflexivity|reflexivity|lia].
    + reflexivity.
    + rewrite (H2 2) by lia. reflexivity.
  - destruct (OnStart_connect_policy (fun _ => inl refused)
                (NewSocketClient "tcp://127.0.0.1:46658" false)) as (_ & _ & H & _).
    rewrite (H eq_refl) by (intros j; exists refused; reflexivity).
    reflexivity.
Defined.

(** ** The receiver task and the latched error *)

Lemma StopForError_stopped (e : error) (w : world) :
  stopped (cli w) = true -> StopForError e w = w.
Proof.
  intros H. unfold StopForError, IsRunning. rewrite H.
  rewrite andb_false_r. reflexivity.
Qed.

Lemma didRecvResponse_empty (res : Response) (w : world) :
  reqSent (cli w) = [] ->
  didRecvResponse res w = (Some (Errorf_nothing_expected res), w).
Proof. intros H. unfold didRecvResponse. rewrite H. reflexivity. Qed.

Lemma didRecvResponse_mismatch (res : Response) (w : world) (next : ptr)
    (rest : list ptr) (rr : ReqRes) :
  reqSent (cli w) = next :: rest -> heap w !! next = Some rr ->
  resMatchesReq (rr_Request rr) res = false ->
  didRecvResponse res w = (Some (Errorf_mismatch res (rr_Request rr)), w).
Proof.
  intros Hs Hh Hm. unfold didRecvResponse, deref_Request.
  rewrite Hs, Hh, Hm. reflexivity.
Qed.

(** Whatever [didRecvResponse] does, it touches neither the latch nor the
    running flag. *)
Lemma didRecvResponse_cli (res : Response) (w : world) :
  let w' := snd (didRecvResponse res w) in
  err (cli w') = err (cli w) /\ stopped (cli w') = stopped (cli w).
Proof.
  cbv zeta. unfold didRecvResponse.
  destruct (reqSent (cli w)) as [|next rest]; [split; reflexivity|].
  destruct (negb (resMatchesReq (deref_Request next w) res)); [split; reflexivity|].
  cbn [snd].
  match goal with
  | |- context [match ?x with Some cb => emit _ ?v | None => _ end] =>
      destruct x; cbn [cli emit]
  end;
  match goal with
  | |- context [match ?x with Some r => _ | None => _ end] =>
      destruct x as [[? ? ? [?|]]|]; cbn; split; reflexivity
  end.
Qed.

Lemma recv_non_Exception (res : Response) (w : world) :
  response_tag res <> Some Exception ->
  recvResponseRoutine_iter (inr res) w =
  match didRecvResponse res w with
  | (Some e, w') => (Return, StopForError e w')
  | (None, w') => (Continue, w')
  end.
Proof.
  intros H. unfold recvResponseRoutine_iter.
  destruct res as [[[]|]]; cbn in H |- *; try reflexivity. congruence.
Qed.

(** C3 (amended).  A response other than [Exception] that arrives while the
    in-flight list is empty makes [didRecvResponse] return the "nothing
    expected" protocol error; the receiver task hands it to [StopForError]
    and ends, and the client is not running afterwards.  On a running
    client with no error latched yet, that error is the one latched,
    [Error] reports it, and the shutdown has closed [Quit] and drained the
    submission queue. *)
Theorem receiver_nothing_expected (res : Response) (w : world) :
  response_tag res <> Some Exception ->
  reqSent (cli w) = [] ->
  let pe := Errorf_nothing_expected res in
  is_ProtocolError pe
  /\ didRecvResponse res w = (Some pe, w)
  /\ recvResponseRoutine_iter (inr res) w = (Return, StopForError pe w)
  /\ (forall more, recvResponseRoutine (inr res :: more) w = (Return, StopForError pe w))
  /\ IsRunning (StopForError pe w) = false
  /\ (IsRunning w = true -> err (cli w) = None ->
      err (cli (StopForError pe w)) = Some pe
      /\ Error (StopForError pe w) = Some (withMessage pe HumanCode_InternalError)
      /\ stopped (cli (StopForError pe w)) = true
      /\ Quit (cli (StopForError pe w)) = true
      /\ reqQueue (cli (StopForError pe w)) = []).
Proof.
  intros Hx Hs. cbv zeta.
  split; [left; eexists; reflexivity|].
  split; [apply didRecvResponse_empty; exact Hs|].
  assert (Hi : recvResponseRoutine_iter (inr res) w
               = (Return, StopForError (Errorf_nothing_expected res) w)).
  { rewrite recv_non_Exception by exact Hx.
    rewrite didRecvResponse_empty by exact Hs. reflexivity. }
  split; [exact Hi|].
  split; [intros more; cbn [recvResponseRoutine]; rewrite Hi; reflexivity|].
  split; [apply StopForError_not_running_after|].
  intros Hr He.
  assert (Hl : err (cli (StopForError (Errorf_nothing_expected res) w))
               = Some (Errorf_nothing_expected res)).
  { apply StopForError_err_running; assumption. }
  split; [exact Hl|].
  split; [unfold Error; rewrite Hl; reflexivity|].
  rewrite StopForError_running_cli by exact Hr.
  repeat split.
Qed.

Lemma receiver_nothing_expected_witness :
  let res := mkResponse (Some (Response_Commit "")) in
  IsRunning started_client = true
  /\ fst (recvResponseRoutine_iter (inr res) started_client) = Return
  /\ Error (snd (recvResponseRoutine_iter (inr res) started_client)) =
     Some (withMessage
             (errorString
                "Unexpected result type *types.Response_Commit when nothing expected")
             "Internal error").
Proof.
  cbv zeta. split; [reflexivity|].
  destruct (receiver_nothing_expected (mkResponse (Some (Response_Commit "")))
              started_client) as (_ & _ & Hi & _ & _ & Hrun);
    [discriminate|reflexivity|].
  rewrite Hi. split; [reflexivity|].
  destruct Hrun as (_ & He & _); [reflexivity|reflexivity|].
  cbn [snd]. rewrite He. reflexivity.
Defined.

(** C3 (as stated) fails: the client is started and then stopped by its
    user, with no error; a [Commit] response that the receiver task still
    reads arrives on an empty in-flight list.  [didRecvResponse] returns
    the "nothing expected" protocol error, but [StopForError] finds the
    client not running and returns at once: no error is latched, and
    [Error] returns nil. *)
Lemma nothing_expected_after_Stop_latches_nothing :
  let res := mkResponse (Some (Response_Commit "")) in
  exists w,
    run [act_Start None 1 (fun _ => inr 1%nat); act_Stop]
        (NewSocketClient "tcp://127.0.0.1:46658" true) = Some w
    /\ response_tag res <> Some Exception
    /\ reqSent (cli w) = []
    /\ fst (didRecvResponse res w) = Some (Errorf_nothing_expected res)
    /\ fst (recvResponseRoutine_iter (inr res) w) = Return
    /\ err (cli (snd (recvResponseRoutine_iter (inr res) w))) = None
    /\ Error (snd (recvResponseRoutine_iter (inr res) w)) = None
    /\ ~ (err (cli (snd (recvResponseRoutine_iter (inr res) w)))
          = Some (Errorf_nothing_expected res)).
Proof.
  cbv zeta. eexists. split; [vm_compute; reflexivity|].
  split; [discriminate|].
  repeat split; try reflexivity.
  intros H. vm_compute in H. discriminate H.
Qed.

(** ** A latched error is terminal *)

Lemma queueRequest_cli (req : Request) (w w' : world) (reqres : ptr) :
  queueRequest req w = Some (reqres, w') ->
  err (cli w') = err (cli w) /\ stopped (cli w') = stopped (cli w)
  /\ length (reqQueue (cli w')) = S (length (reqQueue (cli w)))
  /\ reqres = length (heap w) /\ heap w' = heap w ++ [ReqRes_fresh req].
Proof.
  unfold queueRequest, NewReqRes. cbn [cli upd_heap].
  destruct (Nat.ltb (length (reqQueue (cli w))) reqQueueSize); [|discriminate].
  intros H. injection H as <- <-.
  destruct req as [[[]|]]; cbn; rewrite length_app, Nat.add_comm; repeat split.
Qed.

Lemma write_and_flush_failed (wr fl : option error) (reqres : ptr) (e : error) (w : world) :
  failed_with e w -> failed_with e (snd (write_and_flush wr fl reqres w)).
Proof.
  intros [He Hs]. unfold write_and_flush.
  destruct wr as [e'|].
  - cbn [snd]. rewrite StopForError_stopped by exact Hs. split; assumption.
  - destruct (req_Value (deref_Request reqres w)) as [[]|]; try (split; assumption).
    destruct fl as [e'|]; [|split; assumption].
    cbn [snd]. rewrite StopForError_stopped by exact Hs. split; assumption.
Qed.

Lemma perform_failed (e : error) (a : action) (w w' : world) :
  perform a w = Some w' -> failed_with e w -> failed_with e w'.
Proof.
  intros Hp [He Hs]. destruct a as [req|c wr fl|rd|base fuel dial| |f]; cbn [perform] in Hp.
  - destruct (queueRequest req w) as [[reqres w1]|] eqn:Hq; [|discriminate].
    injection Hp as <-.
    apply queueRequest_cli in Hq as (H1 & H2 & _). split; congruence.
  - destruct (sendRequestsRoutine_iter c wr fl w) as [[k w1]|] eqn:Hi; [|discriminate].
    injection Hp as <-.
    destruct c; unfold sendRequestsRoutine_iter in Hi.
    + destruct (flushTimer (cli w)); [|discriminate].
      unfold case_flushTimer, NewReqRes in Hi.
      match type of Hi with
      | context [if ?b then _ else _] => destruct b
      end; injection Hi as _ <-; split; assumption.
    + destruct (Quit (cli w)); [|discriminate]. injection Hi as _ <-. split; assumption.
    + destruct (reqQueue (cli w)) as [|reqres q]; [discriminate|].
      injection Hi as Hi.
      pose proof (write_and_flush_failed wr fl reqres e
                    (willSendReq reqres (upd_cli (set_reqQueue q) w))) as H.
      unfold case_reqQueue in Hi. rewrite Hi in H. apply H. split; assumption.
  - injection Hp as <-.
    destruct rd as [e'|res].
    + cbn. rewrite StopForError_stopped by exact Hs. split; assumption.
    + unfold recvResponseRoutine_iter.
      pose proof (didRecvResponse_cli res w) as Hd. cbv zeta in Hd.
      destruct (didRecvResponse res w) as [[e'|] w1]; cbn [snd] in Hd;
        destruct Hd as [Hd1 Hd2].
      * assert (Hw : StopForError e' w1 = w1)
          by (apply StopForError_stopped; congruence).
        destruct (res_Value res) as [[]|]; cbn [snd];
          rewrite ?Hw, ?StopForError_stopped by exact Hs; split; congruence.
      * destruct (res_Value res) as [[]|]; cbn [snd];
          rewrite ?StopForError_stopped by exact Hs; split; congruence.
  - injection Hp as <-. unfold Start. rewrite Hs, orb_true_r. split; assumption.
  - injection Hp as <-. unfold Stop. rewrite Hs. split; assumption.
  - injection Hp as <-. split; assumption.
Qed.

Lemma run_failed (e : error) (acts : list action) :
  forall w w', run acts w = Some w' -> failed_with e w -> failed_with e w'.
Proof.
  induction acts as [|a acts IH]; intros w w' Hrun Hf.
  - injection Hrun as <-. exact Hf.
  - cbn [run] in Hrun. destruct (perform a w) as [w1|] eqn:Hp; [|discriminate].
    eapply IH; [exact Hrun|]. eapply perform_failed; eassumption.
Qed.

Lemma steps_failed (e : error) (w w' : world) :
  steps w w' -> failed_with e w -> failed_with e w'.
Proof. intros [acts Hrun]. eapply run_failed; exact Hrun. Qed.

Lemma steps_refl (w : world) : steps w w.
Proof. exists []. reflexivity. Qed.

(** The common beginning of the synchronous forms on a failed client with
    room for two requests in the submission queue: both requests are
    enqueued, [FlushSync] returns the wrapped latched error before it would
    wait, and the request's handle has no response. *)
Lemma sync_prefix_failed (req : Request) (e : error) (w : world) :
  err (cli w) = Some e ->
  length (reqQueue (cli w)) + 2 <= reqQueueSize ->
  exists reqres w1 w2,
    queueRequest req w = Some (reqres, w1)
    /\ FlushSync w1 = Some (Some (withMessage e HumanCode_InternalError), w2)
    /\ Error w2 = Some (withMessage e HumanCode_InternalError)
    /\ deref_Response reqres w2 = None
    /\ steps w w2.
Proof.
  intros He Hroom.
  destruct (queueRequest req w) as [[reqres w1]|] eqn:E1.
  2:{ rewrite queueRequest_room in E1 by lia. discriminate. }
  pose proof E1 as H1. apply queueRequest_cli in H1 as (He1 & _ & Hl1 & Hp & Hh1).
  destruct (queueRequest ToRequestFlush w1) as [[fr w2]|] eqn:E2.
  2:{ rewrite queueRequest_room in E2 by lia. discriminate. }
  pose proof E2 as H2. apply queueRequest_cli in H2 as (He2 & _ & _ & _ & Hh2).
  assert (HE : Error w2 = Some (withMessage e HumanCode_InternalError)).
  { unfold Error. rewrite He2, He1, He. reflexivity. }
  exists reqres, w1, w2. split; [reflexivity|].
  split.
  { unfold FlushSync. rewrite E2. cbn. rewrite HE. reflexivity. }
  split; [exact HE|].
  split.
  { unfold deref_Response. rewrite Hh2, Hh1, Hp.
    rewrite lookup_app_l by (rewrite length_app; cbn; lia).
    rewrite list_lookup_middle by reflexivity. reflexivity. }
  exists [act_queueRequest req; act_queueRequest ToRequestFlush].
  cbn -[queueRequest]. rewrite E1. cbn -[queueRequest]. rewrite E2. reflexivity.
Qed.

Lemma FlushSync_failed (e : error) (w : world) :
  err (cli w) = Some e ->
  length (reqQueue (cli w)) < reqQueueSize ->
  exists w', FlushSync w = Some (Some (withMessage e HumanCode_InternalError), w')
             /\ steps w w'.
Proof.
  intros He Hroom.
  destruct (queueRequest ToRequestFlush w) as [[fr w1]|] eqn:E.
  2:{ rewrite queueRequest_room in E by lia. discriminate. }
  pose proof E as H. apply queueRequest_cli in H as (He1 & _).
  exists w1. split.
  - unfold FlushSync. rewrite E. cbn. unfold Error. rewrite He1, He. reflexivity.
  - exists [act_queueRequest ToRequestFlush]. cbn -[queueRequest]. rewrite E. reflexivity.
Qed.

Lemma InfoSync_failed (req : Payload) (e : error) (w : world) :
  err (cli w) = Some e ->
  length (reqQueue (cli w)) + 2 <= reqQueueSize ->
  exists w', InfoSync req w = Some (None, Some (withMessage e HumanCode_InternalError), w')
             /\ steps w w'.
Proof.
  intros He Hroom.
  destruct (sync_prefix_failed (ToRequestInfo req) e w He Hroom)
    as (reqres & w1 & w2 & H1 & H2 & H3 & H4 & H5).
  exists w2. split; [|exact H5].
  unfold InfoSync. rewrite H1. cbn -[FlushSync]. rewrite H2. cbn.
  rewrite H3, H4. reflexivity.
Qed.

(** On a client whose tasks have ended nothing receives from the
    submission queue any more: once there is no room for its two requests,
    a synchronous call does not return. *)
Lemma InfoSync_blocks_without_room (req : Payload) (w : world) :
  reqQueueSize <= length (reqQueue (cli w)) + 1 -> InfoSync req w = None.
Proof.
  intros H. unfold InfoSync.
  destruct (queueRequest (ToRequestInfo req) w) as [[reqres w1]|] eqn:E1;
    [|reflexivity].
  apply queueRequest_cli in E1 as (_ & _ & Hl & _).
  cbn -[FlushSync]. unfold FlushSync.
  rewrite queueRequest_full by lia. reflexivity.
Qed.

Lemma sync_error_failed (c : sync_call) (e : error) (w : world) :
  err (cli w) = Some e ->
  length (reqQueue (cli w)) + 2 <= reqQueueSize ->
  exists w', sync_error c w = Some (Some (withMessage e HumanCode_InternalError), w')
             /\ steps w w'.
Proof.
  intros He Hroom.
  destruct c; cbn [sync_error];
    try (apply FlushSync_failed; [exact He|lia]);
    match goal with
    | |- context [?f ?a ?b w] =>
        unfold f;
        match goal with
        | |- context [queueRequest ?r w] =>
            destruct (sync_prefix_failed r e w He Hroom)
              as (reqres & w1 & w2 & H1 & H2 & H3 & H4 & H5)
        end
    | |- context [?f ?a w] =>
        unfold f;
        match goal with
        | |- context [queueRequest ?r w] =>
            destruct (sync_prefix_failed r e w He Hroom)
              as (reqres & w1 & w2 & H1 & H2 & H3 & H4 & H5)
        end
    | |- context [?f w] =>
        unfold f;
        match goal with
        | |- context [queueRequest ?r w] =>
            destruct (sync_prefix_failed r e w He Hroom)
              as (reqres & w1 & w2 & H1 & H2 & H3 & H4 & H5)
        end
    end;
    exists w2; (split; [|exact H5]);
    rewrite H1; cbn -[FlushSync]; rewrite H2; cbn; rewrite ?H3; reflexivity.
Qed.

(** C2 (amended).  When a response other than [Exception] arrives whose
    variant does not match the request at the head of the in-flight list,
    [didRecvResponse] returns the mismatch protocol error, the receiver
    task hands it to [StopForError] and ends, and the client is not running
    afterwards.  On a running client with no error latched yet that error
    is the one latched; in every world the client reaches afterwards it is
    still the latched one, the client is not running, [Error] returns it
    wrapped, and every synchronous call made while the submission queue has
    room for its two requests (a later [InfoSync], say) returns that same
    error. *)
Theorem receiver_mismatch_is_fatal (res : Response) (w : world) (next : ptr)
    (rest : list ptr) (rr : ReqRes) :
  response_tag res <> Some Exception ->
  reqSent (cli w) = next :: rest ->
  heap w !! next = Some rr ->
  resMatchesReq (rr_Request rr) res = false ->
  let pe := Errorf_mismatch res (rr_Request rr) in
  let latched := Some (withMessage pe HumanCode_InternalError) in
  is_ProtocolError pe
  /\ didRecvResponse res w = (Some pe, w)
  /\ recvResponseRoutine_iter (inr res) w = (Return, StopForError pe w)
  /\ (forall more, recvResponseRoutine (inr res :: more) w = (Return, StopForError pe w))
  /\ IsRunning (StopForError pe w) = false
  /\ (IsRunning w = true -> err (cli w) = None ->
      err (cli (StopForError pe w)) = Some pe
      /\ Quit (cli (StopForError pe w)) = true
      /\ forall w2, steps (StopForError pe w) w2 ->
           err (cli w2) = Some pe
           /\ IsRunning w2 = false
           /\ Error w2 = latched
           /\ (length (reqQueue (cli w2)) + 2 <= reqQueueSize ->
               (forall c, exists w3, sync_error c w2 = Some (latched, w3) /\ steps w2 w3)
               /\ (forall req, exists w3, InfoSync req w2 = Some (None, latched, w3)))).
Proof.
  intros Hx Hs Hh Hm. cbv zeta.
  set (pe := Errorf_mismatch res (rr_Request rr)).
  split; [right; eexists _, _; reflexivity|].
  split; [apply (didRecvResponse_mismatch res w next rest rr); assumption|].
  assert (Hi : recvResponseRoutine_iter (inr res) w = (Return, StopForError pe w)).
  { rewrite recv_non_Exception by exact Hx.
    rewrite (didRecvResponse_mismatch res w next rest rr) by assumption.
    reflexivity. }
  split; [exact Hi|].
  split; [intros more; cbn [recvResponseRoutine]; rewrite Hi; reflexivity|].
  split; [apply StopForError_not_running_after|].
  intros Hr He.
  assert (Hl : err (cli (StopForError pe w)) = Some pe)
    by (apply StopForError_err_running; assumption).
  assert (Hc := StopForError_running_cli pe w Hr).
  split; [exact Hl|].
  split; [rewrite Hc; reflexivity|].
  intros w2 Hsteps.
  assert (Hf : failed_with pe w2).
  { eapply steps_failed; [exact Hsteps|]. split; [exact Hl|]. rewrite Hc. reflexivity. }
  destruct Hf as [He2 Hs2].
  split; [exact He2|].
  split; [unfold IsRunning; rewrite Hs2; apply andb_false_r|].
  split; [unfold Error; rewrite He2; reflexivity|].
  intros Hroom. split.
  - intros c. apply sync_error_failed; assumption.
  - intros req. destruct (InfoSync_failed req pe w2 He2 Hroom) as (w3 & H3 & _).
    exists w3. exact H3.
Qed.

Lemma receiver_mismatch_is_fatal_witness :
  let res := mkResponse (Some (Response_Commit "")) in
  let latched :=
    Some (withMessage
            (errorString
               "Unexpected result type *types.Response_Commit when response to *types.Request_Echo expected")
            "Internal error") in
  exists w1 w3,
    recvResponseRoutine_iter (inr res) client_with_Echo_in_flight = (Return, w1)
    /\ IsRunning w1 = false
    /\ Error w1 = latched
    /\ InfoSync "" w1 = Some (None, latched, w3).
Proof.
  cbv zeta.
  destruct (receiver_mismatch_is_fatal (mkResponse (Some (Response_Commit "")))
              client_with_Echo_in_flight 0 [] (ReqRes_fresh (ToRequestEcho "hi")))
    as (_ & _ & Hrecv & _ & Hstop & Hrun);
    [discriminate|reflexivity|reflexivity|reflexivity|].
  destruct Hrun as (_ & _ & Hlater); [reflexivity|reflexivity|].
  destruct (Hlater _ (steps_refl _)) as (_ & _ & HE & Hsync).
  destruct Hsync as (_ & HI).
  { vm_compute. lia. }
  destruct (HI "") as (w3 & H3).
  eexists _, w3. split; [exact Hrecv|]. split; [exact Hstop|].
  split; [exact HE|exact H3].
Defined.

(** C2 (as stated) fails: on the same client the reply [Exception "boom"]
    does not match the [Echo] request at the head of the in-flight list,
    yet what the receiver task latches is the text of the exception, which
    is not a protocol error. *)
Lemma exception_reply_latches_its_text :
  let w := client_with_Echo_in_flight in
  let res := mkResponse (Some (Response_Exception "boom")) in
  IsRunning w = true
  /\ err (cli w) = None
  /\ reqSent (cli w) = [0]
  /\ deref_Request 0 w = ToRequestEcho "hi"
  /\ resMatchesReq (deref_Request 0 w) res = false
  /\ err (cli (snd (recvResponseRoutine_iter (inr res) w))) = Some (errorString "boom")
  /\ ~ is_ProtocolError (errorString "boom")
  /\ ~ (err (cli (snd (recvResponseRoutine_iter (inr res) w)))
        = Some (Errorf_mismatch res (deref_Request 0 w))).
Proof.
  cbv zeta. repeat split; try reflexivity.
  - intros [[res H]|[res [req H]]]; discriminate H.
  - intros H. vm_compute in H. discriminate H.
Qed.

(** * Further properties *)

(** ** Matching goes by the variant tag alone *)

Lemma resMatchesReq_Exception (req : Request) (res : Response) :
  response_tag res = Some Exception -> resMatchesReq req res = false.
Proof.
  intros H. destruct (resMatchesReq req res) eqn:E; [|reflexivity].
  apply resMatchesReq_true_tags in E as (t & Hin & _ & Hr).
  apply pairings_tags in Hin. congruence.
Qed.

Lemma resMatchesReq_tags_eq (req : Request) (res : Response) :
  resMatchesReq req res = true ->
  request_tag req = response_tag res /\ response_tag res <> Some Exception
  /\ response_tag res <> None.
Proof.
  intros E. apply resMatchesReq_true_tags in E as (t & Hin & Hq & Hr).
  apply pairings_tags in Hin. rewrite Hq, Hr. repeat split; congruence.
Qed.

(** X1.  [resMatchesReq] looks at the variant tags only: two requests with
    the same tag and two responses with the same tag match alike, whatever
    their payloads.  A response matches the requests of one tag at most, an
    [Exception] response or a response without a variant matches no
    request, and a request without a variant is matched by no response. *)
Theorem resMatchesReq_by_tag (req req' : Request) (res res' : Response) :
  (request_tag req = request_tag req' -> response_tag res = response_tag res' ->
   resMatchesReq req res = resMatchesReq req' res')
  /\ (resMatchesReq req res = true -> resMatchesReq req' res = true ->
      request_tag req = request_tag req')
  /\ (response_tag res = Some Exception \/ response_tag res = None ->
      resMatchesReq req res = false)
  /\ (request_tag req = None -> resMatchesReq req res = false).
Proof.
  split; [|split; [|split]].
  - intros Hq Hr.
    destruct (resMatchesReq req res) eqn:E, (resMatchesReq req' res') eqn:E';
      try reflexivity.
    + apply resMatchesReq_true_tags in E as (t & Hin & Hq1 & Hr1).
      rewrite (tags_resMatchesReq_true req' res' t) in E'; congruence.
    + apply resMatchesReq_true_tags in E' as (t & Hin & Hq1 & Hr1).
      rewrite (tags_resMatchesReq_true req res t) in E; congruence.
  - intros E E'. apply resMatchesReq_tags_eq in E as (H & _).
    apply resMatchesReq_tags_eq in E' as (H' & _). congruence.
  - intros [H|H].
    + apply resMatchesReq_Exception. exact H.
    + destruct (resMatchesReq req res) eqn:E; [|reflexivity].
      apply resMatchesReq_tags_eq in E as (_ & _ & Hn). congruence.
  - intros H. destruct (resMatchesReq req res) eqn:E; [|reflexivity].
    apply resMatchesReq_tags_eq in E as (Hq & _ & Hn). congruence.
Qed.

Lemma resMatchesReq_by_tag_witness :
  resMatchesReq (ToRequestEcho "a") (mkResponse (Some (Response_Echo "b")))
  = resMatchesReq (ToRequestEcho "") (mkResponse (Some (Response_Echo "")))
  /\ resMatchesReq (ToRequestCommit) (mkResponse (Some (Response_Exception "boom")))
     = false.
Proof.
  split.
  - destruct (resMatchesReq_by_tag (ToRequestEcho "a") (ToRequestEcho "")
                (mkResponse (Some (Response_Echo "b")))
                (mkResponse (Some (Response_Echo "")))) as (H & _).
    apply H; reflexivity.
  - destruct (resMatchesReq_by_tag ToRequestCommit ToRequestCommit
                (mkResponse (Some (Response_Exception "boom")))
                (mkResponse (Some (Response_Exception "boom"))))
      as (_ & _ & H & _).
    apply H. left. reflexivity.
Defined.

(** ** The shape of the actions *)

Lemma RETRY_LOOP_cli (dial : nat -> error + Conn) (fuel : nat) :
  forall k w,
    exists c, cli (snd (RETRY_LOOP fuel dial k w)) = set_conn c (cli w).
Proof.
  induction fuel as [|fuel IH]; intros k w.
  - exists (conn (cli w)). destruct w as [[] h t]. reflexivity.
  - cbn [RETRY_LOOP]. destruct (dial k) as [e|c].
    + cbn [cli emit]. destruct (mustConnect (cli w)).
      * exists (conn (cli w)). destruct w as [[] h t]. reflexivity.
      * destruct (IH (S k) (emit (time_Sleep (time_Second * 3))
                        (emit (Logger_Error
                                 ("abci.socketClient failed to connect to "
                                  +:+ addr (cli w) +:+ ".  Retrying..."))
                           (emit (cmn_Connect (addr (cli w))) w)))) as [c Hc].
        exists c. rewrite Hc. reflexivity.
    + exists (Some c). reflexivity.
Qed.

(** [Start] touches the running flag, the connection and the trace only. *)
Lemma Start_frame (base : option error) (fuel : nat) (dial : nat -> error + Conn)
    (w : world) :
  let w' := snd (Start base fuel dial w) in
  heap w' = heap w
  /\ reqQueue (cli w') = reqQueue (cli w)
  /\ reqSent (cli w') = reqSent (cli w)
  /\ err (cli w') = err (cli w).
Proof.
  cbv zeta. unfold Start.
  destruct (started (cli w) || stopped (cli w)); [repeat split|].
  unfold OnStart. destruct base as [e|]; [repeat split|].
  destruct (RETRY_LOOP_frame dial fuel 0 (upd_cli (set_started true) w)) as [Hh _].
  destruct (RETRY_LOOP_cli dial fuel 0 (upd_cli (set_started true) w)) as [c Hc].
  destruct (RETRY_LOOP fuel dial 0 (upd_cli (set_started true) w)) as [[|[e|]] w1];
    cbn [snd] in *; cbn [cli upd_cli heap]; rewrite Hc, Hh; repeat split.
Qed.

(** The [reqQueue] case ends in the world reached after the append and the
    calls on the writer, or in what [StopForError] makes of it. *)
Lemma case_reqQueue_shape (wr fl : option error) (reqres : ptr) (w : world) :
  exists w1,
    cli w1 = cli (willSendReq reqres w) /\ heap w1 = heap w
    /\ (snd (case_reqQueue wr fl reqres w) = w1
        \/ exists e, snd (case_reqQueue wr fl reqres w) = StopForError e w1).
Proof.
  unfold case_reqQueue, write_and_flush.
  destruct wr as [e|].
  { eexists. split; [|split; [|right; eexists; reflexivity]]; reflexivity. }
  destruct (req_Value _) as [[]|];
    try (eexists; split; [|split; [|left; reflexivity]]; reflexivity).
  destruct fl as [e|].
  - eexists. split; [|split; [|right; eexists; reflexivity]]; reflexivity.
  - eexists. split; [|split; [|left; reflexivity]]; reflexivity.
Qed.

Lemma didRecvResponse_match (res : Response) (w : world) (next : ptr)
    (rest : list ptr) (rr : ReqRes) :
  reqSent (cli w) = next :: rest -> heap w !! next = Some rr ->
  resMatchesReq (rr_Request rr) res = true ->
  didRecvResponse res w = (None, complete_head res next rest rr w).
Proof.
  intros Hs Hh Hm. unfold didRecvResponse, deref_Request, complete_head.
  rewrite Hs, Hh, Hm. cbn [negb].
  unfold ReqRes_Done, upd_heap, upd_cli, callback_events. cbn [heap cli].
  rewrite list_alter_alter_eq.
  change (ReqRes_set_done ∘ ReqRes_set_Response res) with (ReqRes_completed res).
  rewrite list_lookup_alter_eq, Hh. cbn [fmap option_fmap option_map].
  destruct rr as [rq rs d [cb|]]; cbn; destruct (resCb (cli w)); reflexivity.
Qed.

(** An iteration of the receiver task either ends in [StopForError], or
    completes the head of the in-flight list with a matching response. *)
Lemma recvResponseRoutine_iter_shape (rd : error + Response) (w : world) :
  (exists e, recvResponseRoutine_iter rd w = (Return, StopForError e w))
  \/ (exists res next rest rr,
        rd = inr res /\ reqSent (cli w) = next :: rest
        /\ heap w !! next = Some rr
        /\ resMatchesReq (rr_Request rr) res = true
        /\ recvResponseRoutine_iter rd w = (Continue, complete_head res next rest rr w)).
Proof.
  destruct rd as [e|res]; [left; eexists; reflexivity|].
  destruct (response_tag res) as [t|] eqn:Ht.
  - assert (Hd : t = Exception \/ t <> Exception)
      by (destruct t; (left; reflexivity) || (right; discriminate)).
    destruct Hd as [->|Hne].
    { left. destruct res as [[[]|]]; try discriminate Ht. eexists. reflexivity. }
    rewrite recv_non_Exception by congruence.
    destruct (reqSent (cli w)) as [|next rest] eqn:Hs.
    { left. rewrite didRecvResponse_empty by exact Hs. eexists. reflexivity. }
    destruct (heap w !! next) as [rr|] eqn:Hh.
    + destruct (resMatchesReq (rr_Request rr) res) eqn:Hm.
      * right. exists res, next, rest, rr.
        rewrite (didRecvResponse_match res w next rest rr) by assumption.
        repeat split; assumption.
      * left. rewrite (didRecvResponse_mismatch res w next rest rr) by assumption.
        eexists. reflexivity.
    + left. unfold didRecvResponse, deref_Request. rewrite Hs, Hh.
      eexists. reflexivity.
  - left. rewrite recv_non_Exception by congruence.
    destruct (reqSent (cli w)) as [|next rest] eqn:Hs.
    { rewrite didRecvResponse_empty by exact Hs. eexists. reflexivity. }
    unfold didRecvResponse. rewrite Hs.
    destruct res as [[v|]]; [destruct v; discriminate Ht|].
    assert (Hm : resMatchesReq (deref_Request next w) {| res_Value := None |} = false).
    { destruct (deref_Request next w) as [[[]|]]; reflexivity. }
    rewrite Hm. eexists. reflexivity.
Qed.

(** ** Invariants of the executions *)

Section Invariant.

Variable P : world -> Prop.

(** [P] looks at the handles, the two lists and the latch only. *)
Hypothesis P_frame : forall w w',
  heap w' = heap w -> reqQueue (cli w') = reqQueue (cli w) ->
  reqSent (cli w') = reqSent (cli w) -> err (cli w') = err (cli w) ->
  P w -> P w'.
Hypothesis P_queue : forall req w reqres w',
  queueRequest req w = Some (reqres, w') -> P w -> P w'.
Hypothesis P_offer : forall w, P w -> P (snd (case_flushTimer w)).
Hypothesis P_take : forall reqres q w,
  reqQueue (cli w) = reqres :: q -> P w ->
  P (upd_cli (fun c => set_reqSent (reqSent c ++ [reqres]) (set_reqQueue q c)) w).
Hypothesis P_latch : forall e w,
  err (cli w) = None -> P w -> P (upd_cli (set_err (Some e)) w).
Hypothesis P_drain : forall w, P w -> P (flushQueue w).
Hypothesis P_complete : forall res next rest rr w,
  reqSent (cli w) = next :: rest -> heap w !! next = Some rr -> P w ->
  P (upd_cli (set_reqSent rest) (upd_heap (alter (ReqRes_completed res) next) w)).

Lemma Stop_preserves (w : world) : P w -> P (Stop w).
Proof.
  intros H. unfold Stop. destruct (stopped (cli w)); [exact H|].
  unfold OnStop. apply P_drain.
  destruct (conn (cli (BaseService_OnStop (upd_cli (set_stopped true) w))));
    (eapply P_frame; [| | | |exact H]); reflexivity.
Qed.

Lemma StopForError_preserves (e : error) (w : world) :
  P w -> P (StopForError e w).
Proof.
  intros H. unfold StopForError. destruct (negb (IsRunning w)); [exact H|].
  apply Stop_preserves.
  destruct (err (cli w)) eqn:He.
  - eapply P_frame; [| | | |exact H]; reflexivity.
  - eapply P_frame; [| | | |apply (P_latch e w He H)]; reflexivity.
Qed.

Lemma perform_preserves (a : action) (w w' : world) :
  perform a w = Some w' -> P w -> P w'.
Proof.
  intros Hp H.
  destruct a as [req|c wr fl|rd|base fuel dial| |f]; cbn [perform] in Hp.
  - destruct (queueRequest req w) as [[p w1]|] eqn:E; [|discriminate].
    injection Hp as <-. eapply P_queue; eassumption.
  - destruct (sendRequestsRoutine_iter c wr fl w) as [[k w1]|] eqn:E; [|discriminate].
    injection Hp as <-. destruct c; unfold sendRequestsRoutine_iter in E.
    + destruct (flushTimer (cli w)); [|discriminate]. injection E as E.
      replace w1 with (snd (case_flushTimer (flushTimer_Unset w)))
        by (rewrite E; reflexivity).
      apply P_offer. eapply P_frame; [| | | |exact H]; reflexivity.
    + destruct (Quit (cli w)); [|discriminate]. injection E as _ <-. exact H.
    + destruct (reqQueue (cli w)) as [|p q] eqn:Eq; [discriminate|].
      injection E as E.
      destruct (case_reqQueue_shape wr fl p (upd_cli (set_reqQueue q) w))
        as (w2 & Hc & Hh & Hw).
      rewrite E in Hw. cbn [snd] in Hw.
      assert (H2 : P w2).
      { eapply P_frame; [| | | |apply (P_take p q w Eq H)];
          rewrite ?Hc, ?Hh; reflexivity. }
      destruct Hw as [->|[e ->]]; [exact H2|].
      apply StopForError_preserves. exact H2.
  - injection Hp as <-.
    destruct (recvResponseRoutine_iter_shape rd w)
      as [[e ->]|(res & next & rest & rr & _ & Hs & Hh & _ & ->)]; cbn [snd].
    + apply StopForError_preserves. exact H.
    + unfold complete_head.
      eapply P_frame; [| | | |apply (P_complete res next rest rr w Hs Hh H)];
        rewrite ?emits_cli, ?emits_heap; reflexivity.
  - injection Hp as <-.
    destruct (Start_frame base fuel dial w) as (H1 & H2 & H3 & H4).
    eapply P_frame; [| | | |exact H]; assumption.
  - injection Hp as <-. apply Stop_preserves. exact H.
  - injection Hp as <-. eapply P_frame; [| | | |exact H]; reflexivity.
Qed.

Lemma run_preserves (acts : list action) :
  forall w w', run acts w = Some w' -> P w -> P w'.
Proof.
  induction acts as [|a acts IH]; intros w w' Hrun H.
  - injection Hrun as <-. exact H.
  - cbn [run] in Hrun. destruct (perform a w) as [w1|] eqn:Hp; [|discriminate].
    eapply IH; [exact Hrun|]. eapply perform_preserves; eassumption.
Qed.

End Invariant.

Lemma case_flushTimer_shape (w : world) :
  let w' := snd (case_flushTimer w) in
  heap w' = heap w ++ [ReqRes_fresh ToRequestFlush]
  /\ reqSent (cli w') = reqSent (cli w)
  /\ err (cli w') = err (cli w)
  /\ (reqQueue (cli w') = reqQueue (cli w)
      \/ length (reqQueue (cli w)) < reqQueueSize
         /\ reqQueue (cli w') = reqQueue (cli w) ++ [length (heap w)]).
Proof.
  cbv zeta. unfold case_flushTimer, NewReqRes. cbn [cli upd_heap].
  destruct (Nat.ltb_spec (length (reqQueue (cli w))) reqQueueSize);
    cbn; repeat split; [right; split; [assumption|reflexivity]|left; reflexivity].
Qed.

Lemma queueRequest_Some_room (req : Request) (w w' : world) (reqres : ptr) :
  queueRequest req w = Some (reqres, w') ->
  length (reqQueue (cli w)) < reqQueueSize.
Proof.
  intros H.
  destruct (Nat.lt_ge_cases (length (reqQueue (cli w))) reqQueueSize) as [Hlt|Hge];
    [exact Hlt|].
  rewrite queueRequest_full in H by exact Hge. discriminate H.
Qed.

(** X2.  The latch is written once: whatever the callers and the two tasks
    do afterwards, in any order, an error that is latched stays the latched
    error, and [Error] keeps returning it. *)
Theorem latched_error_never_changes (acts : list action) (w w' : world) (e : error) :
  run acts w = Some w' ->
  err (cli w) = Some e ->
  err (cli w') = Some e
  /\ Error w' = Some (withMessage e HumanCode_InternalError).
Proof.
  intros Hrun He.
  assert (H : err (cli w') = Some e).
  { revert Hrun He. apply run_preserves with (P := fun v => err (cli v) = Some e).
    - intros v v' _ _ _ Hv H. congruence.
    - intros req v p v' Hq H. apply queueRequest_cli in Hq as (Hv & _). congruence.
    - intros v H. destruct (case_flushTimer_shape v) as (_ & _ & Hv & _). congruence.
    - intros p q v _ H. exact H.
    - intros e' v Hn H. congruence.
    - intros v H. rewrite flushQueue_cli. exact H.
    - intros res next rest rr v _ _ H. exact H. }
  split; [exact H|]. unfold Error. rewrite H. reflexivity.
Qed.

Lemma latched_error_never_changes_witness :
  let w := snd (recvResponseRoutine_iter (inl (errorString "EOF")) started_client) in
  exists w',
    run [act_queueRequest (ToRequestEcho "x");
         act_sender recv_reqQueue (Some (errorString "broken pipe")) None;
         act_receiver (inr (mkResponse (Some (Response_Exception "boom"))));
         act_Stop] w = Some w'
    /\ err (cli w') = Some (errorString "EOF").
Proof.
  cbv zeta. eexists. split; [vm_compute; reflexivity|].
  eapply (latched_error_never_changes
            [act_queueRequest (ToRequestEcho "x");
             act_sender recv_reqQueue (Some (errorString "broken pipe")) None;
             act_receiver (inr (mkResponse (Some (Response_Exception "boom"))));
             act_Stop]
            (snd (recvResponseRoutine_iter (inl (errorString "EOF")) started_client)));
    [vm_compute; reflexivity|reflexivity].
Defined.

(** X3.  The submission queue never holds more than [reqQueueSize]
    handles: no action of the callers or of the two tasks takes it beyond
    that, so every world reached from a new client is within the bound;
    and there [queueRequest] blocks exactly when the queue holds
    [reqQueueSize] handles. *)
Theorem reqQueue_within_capacity (acts : list action) (w w' : world) :
  run acts w = Some w' ->
  length (reqQueue (cli w)) <= reqQueueSize ->
  length (reqQueue (cli w')) <= reqQueueSize
  /\ (forall req, queueRequest req w' = None <->
                  length (reqQueue (cli w')) = reqQueueSize).
Proof.
  intros Hrun H0.
  assert (H : length (reqQueue (cli w')) <= reqQueueSize).
  { revert Hrun H0.
    apply run_preserves with (P := fun v => length (reqQueue (cli v)) <= reqQueueSize).
    - intros v v' _ Hq _ _ H. rewrite Hq. exact H.
    - intros req v p v' Hq H.
      pose proof (queueRequest_Some_room _ _ _ _ Hq) as Hr.
      apply queueRequest_cli in Hq as (_ & _ & Hl & _). lia.
    - intros v H. destruct (case_flushTimer_shape v) as (_ & _ & _ & [Hq|[Hr Hq]]);
        rewrite Hq; [exact H|]. rewrite length_app. cbn. lia.
    - intros p q v Hq H. rewrite Hq in H. cbn in H |- *. lia.
    - intros e v _ H. exact H.
    - intros v H. rewrite flushQueue_cli. cbn. lia.
    - intros res next rest rr v _ _ H. exact H. }
  split; [exact H|].
  intros req. split.
  - intros Hn.
    destruct (Nat.lt_ge_cases (length (reqQueue (cli w'))) reqQueueSize) as [Hlt|Hge];
      [|lia].
    rewrite queueRequest_room in Hn by exact Hlt. discriminate Hn.
  - intros Heq. apply queueRequest_full. lia.
Qed.

Lemma reqQueue_within_capacity_witness :
  exists w',
    run [act_Start None 1 (fun _ => inr 1%nat);
         act_queueRequest (ToRequestCheckTx "tx");
         act_sender recv_flushTimer None None]
        (NewSocketClient "tcp://127.0.0.1:46658" true) = Some w'
    /\ length (reqQueue (cli w')) <= reqQueueSize.
Proof.
  eexists. split; [vm_compute; reflexivity|].
  eapply (reqQueue_within_capacity
            [act_Start None 1 (fun _ => inr 1%nat);
             act_queueRequest (ToRequestCheckTx "tx");
             act_sender recv_flushTimer None None]
            (NewSocketClient "tcp://127.0.0.1:46658" true));
    [vm_compute; reflexivity|cbn; unfold reqQueueSize; lia].
Defined.

(** ** The handles the client holds *)

Lemma queueRequest_shape (req : Request) (w w' : world) (reqres : ptr) :
  queueRequest req w = Some (reqres, w') ->
  heap w' = heap w ++ [ReqRes_fresh req]
  /\ reqSent (cli w') = reqSent (cli w)
  /\ reqQueue (cli w') = reqQueue (cli w) ++ [length (heap w)].
Proof.
  unfold queueRequest, NewReqRes. cbn [cli upd_heap].
  destruct (Nat.ltb (length (reqQueue (cli w))) reqQueueSize); [|discriminate].
  intros H. injection H as <- <-.
  destruct req as [[[]|]]; repeat split.
Qed.

Lemma pending_allocated (p : ptr) (w : world) : pending p w -> p < length (heap w).
Proof. intros (r & Hr & _). eapply lookup_lt_Some. exact Hr. Qed.

(** Allocating a handle, and perhaps putting it at the back of the
    submission queue, keeps the handles in order. *)
Lemma handles_ok_alloc (r : ReqRes) (w w' : world) :
  heap w' = heap w ++ [r] -> rr_done r = false ->
  reqSent (cli w') = reqSent (cli w) ->
  reqQueue (cli w') = reqQueue (cli w)
  \/ reqQueue (cli w') = reqQueue (cli w) ++ [length (heap w)] ->
  handles_ok w -> handles_ok w'.
Proof.
  intros Hh Hr Hs Hq [Hnd Hp].
  assert (Hold : forall p, pending p w -> pending p w').
  { intros p (r0 & H0 & Hd). exists r0. rewrite Hh.
    split; [apply lookup_app_l_Some; exact H0|exact Hd]. }
  unfold handles_ok, tracked in *. rewrite Hs.
  destruct Hq as [-> | ->].
  - split; [exact Hnd|]. intros p Hin. apply Hold, Hp, Hin.
  - split.
    + rewrite <- app_assoc. cbn.
      rewrite <- Permutation_middle. apply NoDup_cons. split; [|exact Hnd].
      intros Hin. apply list_elem_of_In, Hp, pending_allocated in Hin. lia.
    + intros p Hin. rewrite <- app_assoc in Hin. cbn in Hin.
      apply in_app_iff in Hin as [Hin|[<-|Hin]].
      * apply Hold, Hp, in_app_iff. left. exact Hin.
      * exists r. rewrite Hh. split; [apply list_lookup_middle; reflexivity|exact Hr].
      * apply Hold, Hp, in_app_iff. right. exact Hin.
Qed.

Lemma handles_ok_run (acts : list action) (w w' : world) :
  run acts w = Some w' -> handles_ok w -> handles_ok w'.
Proof.
  apply run_preserves.
  - intros v v' Hh Hq Hs _ [Hnd Hp]. unfold handles_ok, tracked, pending in *.
    rewrite Hh, Hq, Hs. split; assumption.
  - intros req v p v' Hq. apply queueRequest_shape in Hq as (Hh & Hs & Hl).
    eapply handles_ok_alloc; [exact Hh|reflexivity|exact Hs|right; exact Hl].
  - intros v. destruct (case_flushTimer_shape v) as (Hh & Hs & _ & Hq).
    eapply handles_ok_alloc; [exact Hh|reflexivity|exact Hs|].
    destruct Hq as [Hq|[_ Hq]]; [left|right]; exact Hq.
  - intros p q v Hq [Hnd Hp]. unfold handles_ok, tracked, pending in *.
    cbn [cli upd_cli reqQueue reqSent set_reqSent set_reqQueue heap].
    rewrite Hq in Hnd, Hp. cbn in Hnd.
    assert (Hperm : q ++ reqSent (cli v) ++ [p] ≡ₚ p :: q ++ reqSent (cli v)).
    { rewrite app_assoc. rewrite <- Permutation_cons_append. reflexivity. }
    split.
    + rewrite Hperm. exact Hnd.
    + intros x Hin. apply Hp. apply list_elem_of_In. apply list_elem_of_In in Hin.
      rewrite Hperm in Hin. exact Hin.
  - intros e v _ H. exact H.
  - intros v [Hnd Hp]. unfold handles_ok, tracked, pending in *.
    rewrite flushQueue_cli. cbn [reqQueue reqSent set_reqQueue app].
    apply NoDup_app in Hnd as (_ & Hdis & Hs).
    split; [exact Hs|].
    intros x Hin. unfold flushQueue.
    rewrite flushQueue_LOOP_heap_other.
    + apply Hp, in_app_iff. right. exact Hin.
    + intros Hq. apply list_elem_of_In in Hq, Hin. exact (Hdis x Hq Hin).
  - intros res next rest rr v Hs Hh [Hnd Hp]. unfold handles_ok, tracked, pending in *.
    cbn [cli upd_cli upd_heap reqQueue reqSent set_reqSent heap].
    rewrite Hs in Hnd, Hp.
    assert (Hperm : reqQueue (cli v) ++ next :: rest ≡ₚ next :: reqQueue (cli v) ++ rest)
      by (symmetry; apply Permutation_middle).
    rewrite Hperm in Hnd. apply NoDup_cons in Hnd as [Hn Hnd].
    split; [exact Hnd|].
    intros x Hin.
    rewrite list_lookup_alter_ne.
    + apply Hp. apply in_app_iff in Hin as [Hin|Hin]; apply in_app_iff;
        [left; exact Hin|right; right; exact Hin].
    + intros <-. apply Hn, list_elem_of_In, Hin.
Qed.

(** X4.  In every world that an execution reaches from a new client, the
    handles in the submission queue and in the in-flight list are pairwise
    distinct, allocated, and not yet done.  So a handle is never held
    twice, and [Done] is only ever called on a handle that has not been
    signalled: by [flushQueue] on the handles of the queue and by
    [didRecvResponse] on the head of the in-flight list. *)
Theorem tracked_handles_distinct_and_pending (w : world) :
  reachable w ->
  NoDup (reqQueue (cli w) ++ reqSent (cli w))
  /\ (forall p, In p (reqQueue (cli w) ++ reqSent (cli w)) ->
        exists r, heap w !! p = Some r /\ rr_done r = false)
  /\ (forall next rest, reqSent (cli w) = next :: rest ->
        is_done next w = false /\ ~ In next rest /\ ~ In next (reqQueue (cli w))).
Proof.
  intros (a & must & acts & Hrun).
  assert (H : handles_ok w).
  { eapply handles_ok_run; [exact Hrun|].
    split; [apply NoDup_nil_2|intros p []]. }
  destruct H as [Hnd Hp]. unfold tracked, pending in *.
  split; [exact Hnd|]. split; [exact Hp|].
  intros next rest Hs. rewrite Hs in Hnd, Hp.
  split.
  - destruct (Hp next) as (r & Hr & Hd).
    { apply in_app_iff. right. left. reflexivity. }
    unfold is_done. rewrite Hr. exact Hd.
  - rewrite <- Permutation_middle in Hnd. apply NoDup_cons in Hnd as [Hn _].
    split; intros Hin; apply Hn, list_elem_of_In, in_app_iff; [right|left]; exact Hin.
Qed.

Lemma tracked_handles_distinct_and_pending_witness :
  exists w,
    run [act_Start None 1 (fun _ => inr 1%nat);
         act_queueRequest (ToRequestEcho "a");
         act_queueRequest (ToRequestEcho "b");
         act_sender recv_reqQueue None None]
        (NewSocketClient "tcp://127.0.0.1:46658" true) = Some w
    /\ NoDup (reqQueue (cli w) ++ reqSent (cli w))
    /\ is_done 0 w = false.
Proof.
  eexists. split; [vm_compute; reflexivity|].
  match goal with
  | |- NoDup (reqQueue (cli ?w) ++ _) /\ _ =>
      destruct (tracked_handles_distinct_and_pending w) as (Hnd & _ & Hhead)
  end.
  { exists "tcp://127.0.0.1:46658", true.
    exists [act_Start None 1 (fun _ => inr 1%nat);
            act_queueRequest (ToRequestEcho "a");
            act_queueRequest (ToRequestEcho "b");
            act_sender recv_reqQueue None None].
    vm_compute. reflexivity. }
  split; [exact Hnd|].
  destruct (Hhead 0 []) as (Hd & _); [reflexivity|exact Hd].
Defined.

(** ** Responses are consumed in the order of the in-flight list *)

Lemma complete_head_fields (res : Response) (next : ptr) (rest : list ptr)
    (r : ReqRes) (w : world) :
  let w' := complete_head res next rest r w in
  cli w' = set_reqSent rest (cli w)
  /\ heap w' = alter (ReqRes_completed res) next (heap w)
  /\ trace w' = trace w ++ callback_events (resCb (cli w)) r res.
Proof.
  cbv zeta. unfold complete_head.
  rewrite emits_cli, emits_heap, emits_trace. repeat split.
Qed.

Lemma recv_iter_match (res : Response) (w : world) (next : ptr)
    (rest : list ptr) (rr : ReqRes) :
  reqSent (cli w) = next :: rest -> heap w !! next = Some rr ->
  resMatchesReq (rr_Request rr) res = true ->
  recvResponseRoutine_iter (inr res) w = (Continue, complete_head res next rest rr w).
Proof.
  intros Hs Hh Hm.
  destruct (resMatchesReq_tags_eq _ _ Hm) as (_ & Hx & _).
  rewrite recv_non_Exception by exact Hx.
  rewrite (didRecvResponse_match res w next rest rr) by assumption. reflexivity.
Qed.

(** X5.  When the response that arrives matches the request at the head of
    the in-flight list, [didRecvResponse] stores it on that handle, signals
    the handle's completion and removes it from the list; it then invokes
    the handle's callback, if one is set, and after it the client's
    listener, if one is set, with the handle's request and the response.
    It returns no error, touches no other handle, neither the submission
    queue nor the latch, and the receiver task goes on. *)
Theorem didRecvResponse_match_completes (res : Response) (w : world) (next : ptr)
    (rest : list ptr) (rr : ReqRes) :
  reqSent (cli w) = next :: rest ->
  heap w !! next = Some rr ->
  resMatchesReq (rr_Request rr) res = true ->
  exists w',
    didRecvResponse res w = (None, w')
    /\ recvResponseRoutine_iter (inr res) w = (Continue, w')
    /\ reqSent (cli w') = rest
    /\ heap w' !! next =
       Some {| rr_Request := rr_Request rr; rr_Response := Some res;
               rr_done := true; rr_cb := rr_cb rr |}
    /\ (forall p, p <> next -> heap w' !! p = heap w !! p)
    /\ new_events w w' =
       match rr_cb rr with Some cb => [call_cb cb res] | None => [] end
       ++ match resCb (cli w) with
          | Some cb => [call_resCb cb (rr_Request rr) res]
          | None => []
          end
    /\ reqQueue (cli w') = reqQueue (cli w)
    /\ err (cli w') = err (cli w)
    /\ IsRunning w' = IsRunning w.
Proof.
  intros Hs Hh Hm. exists (complete_head res next rest rr w).
  destruct (complete_head_fields res next rest rr w) as (Hc & Hp & Ht).
  split; [apply didRecvResponse_match; assumption|].
  split; [apply recv_iter_match; assumption|].
  split; [rewrite Hc; reflexivity|].
  split; [rewrite Hp, list_lookup_alter_eq, Hh; reflexivity|].
  split; [intros p Hne; rewrite Hp; apply list_lookup_alter_ne; congruence|].
  split; [apply new_events_app; exact Ht|].
  unfold IsRunning. rewrite Hc. repeat split.
Qed.

Lemma didRecvResponse_match_completes_witness :
  let res := mkResponse (Some (Response_Echo "hi")) in
  exists w',
    didRecvResponse res (SetResponseCallback (Some 7%nat) client_with_Echo_in_flight)
    = (None, w')
    /\ reqSent (cli w') = []
    /\ is_done 0 w' = true
    /\ deref_Response 0 w' = Some res
    /\ new_events (SetResponseCallback (Some 7%nat) client_with_Echo_in_flight) w'
       = [call_resCb 7%nat (ToRequestEcho "hi") res].
Proof.
  cbv zeta.
  destruct (didRecvResponse_match_completes (mkResponse (Some (Response_Echo "hi")))
              (SetResponseCallback (Some 7%nat) client_with_Echo_in_flight)
              0 [] (ReqRes_fresh (ToRequestEcho "hi")))
    as (w' & Hd & _ & Hs & Hh & _ & Hev & _); [reflexivity|reflexivity|reflexivity|].
  exists w'. split; [exact Hd|]. split; [exact Hs|].
  split; [unfold is_done; rewrite Hh; reflexivity|].
  split; [unfold deref_Response; rewrite Hh; reflexivity|exact Hev].
Defined.

Lemma recv_in_order (items : list answer) :
  forall (rest : list ptr) (w : world),
    reqSent (cli w) = (ans_ptr <$> items) ++ rest ->
    NoDup (ans_ptr <$> items) ->
    Forall (fun it => heap w !! ans_ptr it = Some (ans_handle it)
                      /\ resMatchesReq (rr_Request (ans_handle it)) (ans_Response it)
                         = true) items ->
    exists w',
      recvResponseRoutine ((fun it => inr (ans_Response it)) <$> items) w
      = (Continue, w')
      /\ cli w' = set_reqSent rest (cli w)
      /\ Forall (fun it => heap w' !! ans_ptr it
                           = Some (ReqRes_completed (ans_Response it) (ans_handle it)))
           items
      /\ (forall p, p ∉ (ans_ptr <$> items) -> heap w' !! p = heap w !! p)
      /\ trace w' =
         trace w ++ concat ((fun it => callback_events (resCb (cli w)) (ans_handle it)
                                         (ans_Response it)) <$> items).
Proof.
  induction items as [|it items IH]; intros rest w Hs Hnd Hall.
  - exists w. cbn. split; [reflexivity|].
    split; [destruct w as [[] h t]; cbn in *; subst; reflexivity|].
    split; [constructor|]. split; [reflexivity|]. symmetry. apply app_nil_r.
  - cbn [fmap list_fmap] in Hs, Hnd. cbn [app] in Hs.
    apply NoDup_cons in Hnd as [Hn Hnd].
    apply Forall_cons in Hall as [[Hh Hm] Hall].
    pose proof (recv_iter_match _ w _ _ _ Hs Hh Hm) as Hi.
    destruct (complete_head_fields (ans_Response it) (ans_ptr it)
                ((ans_ptr <$> items) ++ rest) (ans_handle it) w) as (Hc & Hp & Ht).
    set (w1 := complete_head (ans_Response it) (ans_ptr it)
                 ((ans_ptr <$> items) ++ rest) (ans_handle it) w) in *.
    assert (Hother : forall p, p <> ans_ptr it -> heap w1 !! p = heap w !! p).
    { intros p Hne. rewrite Hp. apply list_lookup_alter_ne. congruence. }
    destruct (IH rest w1) as (w' & Hr & Hc' & Hdone & Hfr & Ht').
    { rewrite Hc. reflexivity. }
    { exact Hnd. }
    { apply Forall_forall. intros x Hx.
      rewrite Forall_forall in Hall. destruct (Hall x Hx) as [Hx1 Hx2].
      split; [|exact Hx2]. rewrite Hother; [exact Hx1|].
      intros Heq. apply Hn. rewrite <- Heq. apply list_elem_of_fmap_2. exact Hx. }
    exists w'. split.
    { cbn [fmap list_fmap recvResponseRoutine]. rewrite Hi. exact Hr. }
    split; [rewrite Hc', Hc; reflexivity|].
    split.
    { apply Forall_cons. split; [|exact Hdone].
      rewrite Hfr by exact Hn. rewrite Hp, list_lookup_alter_eq, Hh. reflexivity. }
    split.
    { intros p Hp'. apply not_elem_of_cons in Hp' as [Hne Hp'].
      rewrite Hfr by exact Hp'. apply Hother. exact Hne. }
    rewrite Ht', Ht, Hc. cbn [resCb set_reqSent fmap list_fmap concat].
    rewrite <- app_assoc. reflexivity.
Qed.

(** X6.  Responses are consumed in the order of the in-flight list: when
    the responses that arrive match, one after the other, the requests of
    the first handles of the list, the receiver task completes exactly
    these handles, each with its own response, takes them off the list in
    that order, invokes their callbacks in that order, leaves every other
    handle, the submission queue and the latch as they were, and goes
    on. *)
Theorem receiver_consumes_in_order (items : list answer) (rest : list ptr)
    (w : world) :
  reqSent (cli w) = (ans_ptr <$> items) ++ rest ->
  NoDup (ans_ptr <$> items) ->
  Forall (fun it => heap w !! ans_ptr it = Some (ans_handle it)
                    /\ resMatchesReq (rr_Request (ans_handle it)) (ans_Response it)
                       = true) items ->
  exists w',
    recvResponseRoutine ((fun it => inr (ans_Response it)) <$> items) w
    = (Continue, w')
    /\ reqSent (cli w') = rest
    /\ Forall (fun it =>
                 exists r, heap w' !! ans_ptr it = Some r
                           /\ rr_Response r = Some (ans_Response it)
                           /\ rr_done r = true
                           /\ rr_Request r = rr_Request (ans_handle it)) items
    /\ (forall p, p ∉ (ans_ptr <$> items) -> heap w' !! p = heap w !! p)
    /\ new_events w w' =
       concat ((fun it => callback_events (resCb (cli w)) (ans_handle it)
                            (ans_Response it)) <$> items)
    /\ reqQueue (cli w') = reqQueue (cli w)
    /\ err (cli w') = err (cli w).
Proof.
  intros Hs Hnd Hall.
  destruct (recv_in_order items rest w Hs Hnd Hall) as (w' & Hr & Hc & Hd & Hfr & Ht).
  exists w'. split; [exact Hr|]. split; [rewrite Hc; reflexivity|].
  split.
  { eapply Forall_impl; [exact Hd|]. intros it Hit. cbv beta in Hit.
    eexists. split; [exact Hit|]. repeat split. }
  split; [exact Hfr|]. split; [apply new_events_app; exact Ht|].
  rewrite Hc. split; reflexivity.
Qed.

Lemma receiver_consumes_in_order_witness :
  let items := [mkAnswer 0 (ReqRes_fresh (ToRequestEcho "a"))
                  (mkResponse (Some (Response_Echo "a")));
                mkAnswer 1 (ReqRes_fresh ToRequestFlush)
                  (mkResponse (Some Response_Flush))] in
  exists w',
    recvResponseRoutine ((fun it => inr (ans_Response it)) <$> items)
      client_with_two_in_flight = (Continue, w')
    /\ reqSent (cli w') = []
    /\ new_events client_with_two_in_flight w' = [].
Proof.
  cbv zeta.
  destruct (receiver_consumes_in_order
              [mkAnswer 0 (ReqRes_fresh (ToRequestEcho "a"))
                 (mkResponse (Some (Response_Echo "a")));
               mkAnswer 1 (ReqRes_fresh ToRequestFlush)
                 (mkResponse (Some Response_Flush))]
              [] client_with_two_in_flight)
    as (w' & Hr & Hs & _ & _ & Hev & _).
  - reflexivity.
  - cbn. apply NoDup_cons. split; [|apply NoDup_singleton].
    intros H. apply list_elem_of_In in H. cbn in H. intuition discriminate.
  - repeat constructor.
  - exists w'. split; [exact Hr|]. split; [exact Hs|exact Hev].
Defined.

(** ** Requests are sent in the order of the submission queue *)

Lemma send_events_heap (w w' : world) (reqres : ptr) :
  heap w' = heap w -> send_events w' reqres = send_events w reqres.
Proof. intros H. unfold send_events, deref_Request. rewrite H. reflexivity. Qed.

Lemma send_events_fmap_heap (w w' : world) (ps : list ptr) :
  heap w' = heap w -> send_events w' <$> ps = send_events w <$> ps.
Proof.
  intros H. induction ps as [|x ps IH]; [reflexivity|].
  cbn [fmap list_fmap]. rewrite IH, (send_events_heap w w' x H). reflexivity.
Qed.

Lemma case_reqQueue_ok (reqres : ptr) (w : world) :
  case_reqQueue None None reqres w =
  (Continue,
   emits (send_events w reqres)
     (upd_cli (fun c => set_reqSent (reqSent c ++ [reqres]) c) w)).
Proof.
  unfold case_reqQueue, write_and_flush, send_events.
  change (deref_Request reqres (willSendReq reqres w)) with (deref_Request reqres w).
  destruct (req_Value (deref_Request reqres w)) as [[]|]; reflexivity.
Qed.

Lemma written_send_events (w : world) (ps : list ptr) :
  written (concat (send_events w <$> ps)) = (fun p => deref_Request p w) <$> ps.
Proof.
  induction ps as [|p ps IH]; [reflexivity|].
  cbn [fmap list_fmap concat]. unfold written in *. rewrite omap_app, IH.
  unfold send_events.
  destruct (req_Value (deref_Request p w)) as [[]|]; reflexivity.
Qed.

Lemma send_in_order (ps : list ptr) :
  forall (q : list ptr) (w : world),
    reqQueue (cli w) = ps ++ q ->
    exists w',
      sendRequestsRoutine (replicate (length ps) (recv_reqQueue, None, None)) w
      = Some (Continue, w')
      /\ cli w' = set_reqSent (reqSent (cli w) ++ ps) (set_reqQueue q (cli w))
      /\ heap w' = heap w
      /\ trace w' = trace w ++ concat (send_events w <$> ps).
Proof.
  induction ps as [|p ps IH]; intros q w Hq.
  - exists w. cbn. rewrite !app_nil_r.
    split; [reflexivity|].
    split; [destruct w as [[] h t]; cbn in *; subst; reflexivity|].
    split; reflexivity.
  - cbn [length replicate sendRequestsRoutine]. unfold sendRequestsRoutine_iter.
    rewrite Hq. cbn [app]. rewrite case_reqQueue_ok.
    set (w1 := emits _ _).
    destruct (IH q w1) as (w' & Hr & Hc & Hh & Ht).
    { unfold w1. rewrite emits_cli. reflexivity. }
    exists w'. split; [exact Hr|].
    assert (Hh1 : heap w1 = heap w) by (unfold w1; rewrite emits_heap; reflexivity).
    split.
    { rewrite Hc. unfold w1. rewrite emits_cli. cbn. rewrite <- app_assoc. reflexivity. }
    split; [congruence|].
    rewrite Ht, (send_events_fmap_heap w w1 ps Hh1). unfold w1. rewrite emits_trace. cbn [trace upd_cli].
    cbn [fmap list_fmap concat]. rewrite <- app_assoc.
    rewrite (send_events_heap w (upd_cli (set_reqQueue (ps ++ q)) w) p eq_refl).
    reflexivity.
Qed.

(** X7.  The sender task sends in the order of the submission queue: while
    the writes and the flushes succeed, taking the first handles of the
    queue one iteration after the other appends them to the in-flight list
    in the order they had in the queue, writes their requests through the
    codec in that same order, each right after its append, flushes the
    writer after every [Flush] and only there, and changes neither a handle
    nor the latch. *)
Theorem sender_sends_in_queue_order (ps q : list ptr) (w : world) :
  reqQueue (cli w) = ps ++ q ->
  exists w',
    sendRequestsRoutine (replicate (length ps) (recv_reqQueue, None, None)) w
    = Some (Continue, w')
    /\ reqQueue (cli w') = q
    /\ reqSent (cli w') = reqSent (cli w) ++ ps
    /\ heap w' = heap w
    /\ new_events w w' = concat (send_events w <$> ps)
    /\ written (new_events w w') = (fun p => deref_Request p w) <$> ps
    /\ err (cli w') = err (cli w)
    /\ IsRunning w' = IsRunning w.
Proof.
  intros Hq. destruct (send_in_order ps q w Hq) as (w' & Hr & Hc & Hh & Ht).
  exists w'. split; [exact Hr|].
  assert (Hev : new_events w w' = concat (send_events w <$> ps))
    by (apply new_events_app; exact Ht).
  unfold IsRunning. rewrite Hc, Hev. cbn.
  repeat split; [exact Hh|apply written_send_events].
Qed.

Lemma sender_sends_in_queue_order_witness :
  exists w',
    sendRequestsRoutine (replicate 3 (recv_reqQueue, None, None))
      client_with_three_queued = Some (Continue, w')
    /\ reqSent (cli w') = [0; 1; 2]
    /\ written (new_events client_with_three_queued w') =
       [ToRequestCheckTx "t1"; ToRequestCheckTx "t2"; ToRequestFlush].
Proof.
  destruct (sender_sends_in_queue_order [0; 1; 2] [] client_with_three_queued eq_refl)
    as (w' & Hr & _ & Hs & _ & _ & Hw & _).
  exists w'. split; [exact Hr|]. split; [exact Hs|exact Hw].
Defined.

(** ** Fatal errors *)

Lemma StopForError_heap_other (e : error) (w : world) (p : ptr) :
  ~ In p (reqQueue (cli w)) -> heap (StopForError e w) !! p = heap w !! p.
Proof.
  intros Hp. unfold StopForError. destruct (negb (IsRunning w)); [reflexivity|].
  rewrite Stop_heap_other; [destruct (err (cli w)); reflexivity|].
  destruct (err (cli w)); exact Hp.
Qed.

Lemma StopForError_done_queued (e : error) (w : world) (p : ptr) (r : ReqRes) :
  IsRunning w = true -> In p (reqQueue (cli w)) -> heap w !! p = Some r ->
  is_done p (StopForError e w) = true.
Proof.
  intros Hr Hp Hh. unfold StopForError. rewrite Hr. cbn [negb].
  unfold IsRunning in Hr. apply andb_true_iff in Hr as [_ Hs].
  apply negb_true_iff in Hs.
  eapply Stop_releases_queued.
  - destruct (err (cli w)); exact Hs.
  - destruct (err (cli w)); exact Hp.
  - destruct (err (cli w)); exact Hh.
Qed.

Lemma StopForError_new_events (e : error) (w : world) :
  new_events w (StopForError e w) = StopForError_events e w.
Proof. apply new_events_app, StopForError_trace. Qed.

(** X8.  [StopForError] on a running client is a shutdown that releases the
    callers whose requests were still queued: the error is latched unless
    one was latched before, the line is logged and then the connection is
    closed, [Quit] is closed, the submission queue is emptied and every
    handle that was in it is done, without a response; the in-flight list
    and every handle outside the queue are left as they were. *)
Theorem StopForError_releases_queued (e : error) (w : world) :
  IsRunning w = true ->
  let w' := StopForError e w in
  err (cli w') = Some (default e (err (cli w)))
  /\ IsRunning w' = false
  /\ Quit (cli w') = true
  /\ reqQueue (cli w') = []
  /\ reqSent (cli w') = reqSent (cli w)
  /\ (forall p r, In p (reqQueue (cli w)) -> heap w !! p = Some r ->
        is_done p w' = true /\ deref_Response p w' = rr_Response r)
  /\ (forall p, ~ In p (reqQueue (cli w)) -> heap w' !! p = heap w !! p)
  /\ new_events w w' =
     Logger_Error ("Stopping abci.socketClient for error: " +:+ error_Error e)
     :: match conn (cli w) with Some c => [conn_Close c] | None => [] end.
Proof.
  intros Hr. cbv zeta.
  pose proof (StopForError_running_cli e w Hr) as Hc.
  split; [rewrite Hc; destruct (err (cli w)) eqn:He; cbn; rewrite ?He; reflexivity|].
  split; [apply StopForError_not_running_after|].
  split; [rewrite Hc; reflexivity|].
  split; [rewrite Hc; reflexivity|].
  split; [rewrite Hc; destruct (err (cli w)); reflexivity|].
  split.
  { intros p r Hp Hh. split; [eapply StopForError_done_queued; eassumption|].
    unfold deref_Response, StopForError. rewrite Hr. cbn [negb].
    unfold IsRunning in Hr. apply andb_true_iff in Hr as [_ Hs].
    apply negb_true_iff in Hs. unfold Stop.
    assert (Hgen : forall v, stopped (cli v) = false -> heap v = heap w ->
              heap (if stopped (cli v) then v else OnStop (upd_cli (set_stopped true) v))
                !! p ≫= rr_Response = rr_Response r).
    { intros v Hv Hhv. rewrite Hv. unfold OnStop, flushQueue.
      set (v1 := match conn (cli (BaseService_OnStop (upd_cli (set_stopped true) v))) with
                 | Some c => emit (conn_Close c)
                               (BaseService_OnStop (upd_cli (set_stopped true) v))
                 | None => BaseService_OnStop (upd_cli (set_stopped true) v)
                 end).
      assert (Hh1 : heap v1 = heap w) by (unfold v1; destruct (conn _); exact Hhv).
      destruct (flushQueue_LOOP_heap (reqQueue (cli v1)) p v1 r)
        as (r' & Hl & _ & Hrs & _); [rewrite Hh1; exact Hh|].
      rewrite Hl. cbn. exact Hrs. }
    destruct (err (cli w)); apply Hgen; (exact Hs || reflexivity). }
  split; [intros p Hp; apply StopForError_heap_other; exact Hp|].
  rewrite StopForError_new_events. unfold StopForError_events. rewrite Hr. reflexivity.
Qed.

Lemma StopForError_releases_queued_witness :
  let w' := StopForError (errorString "EOF") client_with_three_queued in
  IsRunning client_with_three_queued = true
  /\ reqQueue (cli w') = []
  /\ is_done 1 w' = true
  /\ err (cli w') = Some (errorString "EOF").
Proof.
  cbv zeta. split; [reflexivity|].
  destruct (StopForError_releases_queued (errorString "EOF") client_with_three_queued
              eq_refl) as (He & _ & _ & Hq & _ & Hd & _).
  split; [exact Hq|]. split; [|exact He].
  destruct (Hd 1 (ReqRes_fresh (ToRequestCheckTx "t2"))) as [H _];
    [right; left; reflexivity|reflexivity|exact H].
Defined.

(** X9.  A failed write, or a failed flush after a [Flush] was written,
    ends the sender task and is fatal: on a running client with no error
    latched, the error is latched with the text "Error writing msg: " or
    "Error flushing writer: " before the cause, and the client is stopped.
    The handle was appended to the in-flight list before the write, so it
    stays there, and it is not signalled.  With any other outcome the
    iteration latches nothing and the task goes on. *)
Theorem sender_io_error_is_fatal (wr fl : option error) (reqres : ptr)
    (q : list ptr) (w : world) :
  IsRunning w = true ->
  err (cli w) = None ->
  reqQueue (cli w) = reqres :: q ->
  exists k w',
    sendRequestsRoutine_iter recv_reqQueue wr fl w = Some (k, w')
    /\ reqSent (cli w') = reqSent (cli w) ++ [reqres]
    /\ (~ In reqres q -> heap w' !! reqres = heap w !! reqres)
    /\ (forall fe, sender_failure wr fl (deref_Request reqres w) = Some fe ->
          k = Return
          /\ err (cli w') = Some fe
          /\ Error w' = Some (withMessage fe HumanCode_InternalError)
          /\ IsRunning w' = false
          /\ reqQueue (cli w') = [])
    /\ (sender_failure wr fl (deref_Request reqres w) = None ->
          k = Continue /\ err (cli w') = None /\ IsRunning w' = true
          /\ reqQueue (cli w') = q /\ heap w' = heap w).
Proof.
  intros Hr He Hq. unfold sendRequestsRoutine_iter. rewrite Hq.
  unfold case_reqQueue, write_and_flush, sender_failure.
  change (deref_Request reqres (willSendReq reqres (upd_cli (set_reqQueue q) w)))
    with (deref_Request reqres w).
  assert (Hfatal : forall fe W,
    cli W = cli (willSendReq reqres (upd_cli (set_reqQueue q) w)) -> heap W = heap w ->
    reqSent (cli (StopForError fe W)) = reqSent (cli w) ++ [reqres]
    /\ (~ In reqres q -> heap (StopForError fe W) !! reqres = heap w !! reqres)
    /\ err (cli (StopForError fe W)) = Some fe
    /\ Error (StopForError fe W) = Some (withMessage fe HumanCode_InternalError)
    /\ IsRunning (StopForError fe W) = false
    /\ reqQueue (cli (StopForError fe W)) = []).
  { intros fe W Hc Hh.
    assert (HrW : IsRunning W = true) by (unfold IsRunning; rewrite Hc; exact Hr).
    assert (HeW : err (cli W) = None) by (rewrite Hc; exact He).
    pose proof (StopForError_running_cli fe W HrW) as HcS.
    pose proof (StopForError_err_running fe W HrW HeW) as HeS.
    split; [rewrite HcS, HeW; cbn; rewrite Hc; reflexivity|].
    split.
    { intros Hn. rewrite StopForError_heap_other; [rewrite Hh; reflexivity|].
      rewrite Hc. exact Hn. }
    split; [exact HeS|].
    split; [unfold Error; rewrite HeS; reflexivity|].
    split; [apply StopForError_not_running_after|].
    rewrite HcS. reflexivity. }
  destruct wr as [e|].
  { eexists _, _. split; [reflexivity|].
    match goal with
    | |- context [StopForError ?fe ?W] =>
        destruct (Hfatal fe W eq_refl eq_refl) as (H1 & H2 & H3 & H4 & H5 & H6)
    end.
    split; [exact H1|]. split; [exact H2|].
    split; [|discriminate].
    intros fe Hfe. injection Hfe as <-. repeat split; assumption. }
  destruct (req_Value (deref_Request reqres w)) as [[]|] eqn:Hv;
    try (eexists _, _; split; [reflexivity|];
         split; [reflexivity|]; split; [reflexivity|];
         split; [destruct fl; discriminate|];
         intros _; repeat split; assumption).
  destruct fl as [e|].
  - eexists _, _. split; [reflexivity|].
    match goal with
    | |- context [StopForError ?fe ?W] =>
        destruct (Hfatal fe W eq_refl eq_refl) as (H1 & H2 & H3 & H4 & H5 & H6)
    end.
    split; [exact H1|]. split; [exact H2|].
    split; [|discriminate].
    intros fe Hfe. injection Hfe as <-. repeat split; assumption.
  - eexists _, _. split; [reflexivity|].
    split; [reflexivity|]. split; [reflexivity|].
    split; [discriminate|].
    intros _. repeat split; assumption.
Qed.

Lemma sender_io_error_is_fatal_witness :
  exists w',
    sendRequestsRoutine_iter recv_reqQueue (Some (errorString "broken pipe")) None
      client_with_three_queued = Some (Return, w')
    /\ err (cli w') = Some (errorString "Error writing msg: broken pipe")
    /\ reqSent (cli w') = [0]
    /\ is_done 0 w' = false.
Proof.
  destruct (sender_io_error_is_fatal (Some (errorString "broken pipe")) None
              0 [1; 2] client_with_three_queued eq_refl eq_refl eq_refl)
    as (k & w' & Hi & Hs & Hh & Hf & _).
  destruct (Hf _ eq_refl) as (-> & He & _).
  exists w'. split; [exact Hi|]. split; [exact He|]. split; [exact Hs|].
  unfold is_done. rewrite Hh; [reflexivity|].
  cbn. intuition discriminate.
Defined.

(** X10.  A failed read and an [Exception] response are fatal whatever the
    in-flight list holds: on a running client with no error latched, the
    receiver task latches the read error, or the text of the exception,
    stops the client and ends.  The in-flight list is left as it was and
    no handle in it is signalled or given a response, not even the one at
    its head. *)
Theorem receiver_failure_is_fatal (rd : error + Response) (fe : error) (w : world) :
  IsRunning w = true ->
  err (cli w) = None ->
  receiver_failure rd = Some fe ->
  let w' := StopForError fe w in
  recvResponseRoutine_iter rd w = (Return, w')
  /\ (forall more, recvResponseRoutine (rd :: more) w = (Return, w'))
  /\ err (cli w') = Some fe
  /\ Error w' = Some (withMessage fe HumanCode_InternalError)
  /\ IsRunning w' = false
  /\ reqSent (cli w') = reqSent (cli w)
  /\ (forall p, In p (reqSent (cli w)) -> ~ In p (reqQueue (cli w)) ->
        heap w' !! p = heap w !! p).
Proof.
  intros Hr He Hf. cbv zeta.
  assert (Hi : recvResponseRoutine_iter rd w = (Return, StopForError fe w)).
  { destruct rd as [e|[[[]|]]]; cbn in Hf; try discriminate Hf;
      injection Hf as <-; reflexivity. }
  pose proof (StopForError_err_running fe w Hr He) as HeS.
  split; [exact Hi|].
  split; [intros more; cbn [recvResponseRoutine]; rewrite Hi; reflexivity|].
  split; [exact HeS|].
  split; [unfold Error; rewrite HeS; reflexivity|].
  split; [apply StopForError_not_running_after|].
  split; [rewrite (StopForError_running_cli fe w Hr), He; reflexivity|].
  intros p _ Hn. apply StopForError_heap_other. exact Hn.
Qed.

Lemma receiver_failure_is_fatal_witness :
  let w' := StopForError (errorString "boom") client_with_two_in_flight in
  recvResponseRoutine_iter (inr (mkResponse (Some (Response_Exception "boom"))))
    client_with_two_in_flight = (Return, w')
  /\ err (cli w') = Some (errorString "boom")
  /\ reqSent (cli w') = [0; 1]
  /\ is_done 0 w' = false.
Proof.
  cbv zeta.
  destruct (receiver_failure_is_fatal
              (inr (mkResponse (Some (Response_Exception "boom"))))
              (errorString "boom") client_with_two_in_flight eq_refl eq_refl eq_refl)
    as (Hi & _ & He & _ & _ & Hs & Hh).
  split; [exact Hi|]. split; [exact He|]. split; [exact Hs|].
  unfold is_done. rewrite Hh; [reflexivity|left; reflexivity|intros []].
Defined.

(** ** The flush timer and the submissions *)

(** X11.  A [Flush] submission cancels the pending automatic flush: right
    after it the timer case of the sender task is not ready.  Any other
    submission arms the timer; when it fires, the sender task puts one
    [Flush] right behind what is queued, if the queue has room for it, and
    the timer is disarmed again, so that it does not fire a second time
    before the next submission. *)
Theorem Flush_cancels_auto_flush (req : Request) (wr fl : option error)
    (w w1 : world) (reqres : ptr) :
  queueRequest req w = Some (reqres, w1) ->
  (request_tag req = Some Flush ->
   sendRequestsRoutine_iter recv_flushTimer wr fl w1 = None)
  /\ (request_tag req <> Some Flush ->
      exists w2,
        sendRequestsRoutine_iter recv_flushTimer wr fl w1 = Some (Continue, w2)
        /\ (length (reqQueue (cli w)) + 2 <= reqQueueSize ->
            reqQueue (cli w2) = reqQueue (cli w) ++ [reqres; length (heap w1)]
            /\ deref_Request (length (heap w1)) w2 = ToRequestFlush)
        /\ (reqQueueSize < length (reqQueue (cli w)) + 2 ->
            reqQueue (cli w2) = reqQueue (cli w) ++ [reqres])
        /\ sendRequestsRoutine_iter recv_flushTimer wr fl w2 = None).
Proof.
  intros Hq. pose proof (queueRequest_Some_room _ _ _ _ Hq) as Hroom.
  rewrite queueRequest_room in Hq by exact Hroom. injection Hq as <- <-.
  split.
  - intros Ht. apply request_tag_Flush in Ht. rewrite Ht. reflexivity.
  - intros Ht. rewrite request_tag_Flush in Ht.
    assert (Harm : match req_Value req with
                   | Some Request_Flush => false
                   | _ => true
                   end = true)
      by (destruct (req_Value req) as [[]|]; congruence || reflexivity).
    rewrite Harm. unfold sendRequestsRoutine_iter at 1. cbn [cli upd_cli flushTimer set_flushTimer].
    unfold case_flushTimer, NewReqRes.
    cbn [cli upd_cli upd_heap flushTimer_Unset reqQueue set_flushTimer set_reqQueue heap].
    rewrite !length_app. cbn [length].
    destruct (Nat.ltb_spec (length (reqQueue (cli w)) + 1) reqQueueSize) as [Hlt|Hge].
    + eexists. split; [reflexivity|]. cbn.
      split; [|split; [intros; lia|reflexivity]].
      intros _. split; [rewrite <- app_assoc; reflexivity|].
      unfold deref_Request. cbn.
      rewrite list_lookup_middle by (rewrite length_app; cbn; reflexivity).
      reflexivity.
    + eexists. split; [reflexivity|]. cbn.
      split; [intros; lia|]. split; [reflexivity|reflexivity].
Qed.

Lemma Flush_cancels_auto_flush_witness :
  exists a w1 w2 f w3,
    EchoAsync "x" started_client = Some (a, w1)
    /\ sendRequestsRoutine_iter recv_flushTimer None None w1 = Some (Continue, w2)
    /\ sendRequestsRoutine_iter recv_flushTimer None None w2 = None
    /\ FlushAsync w1 = Some (f, w3)
    /\ sendRequestsRoutine_iter recv_flushTimer None None w3 = None.
Proof.
  destruct (EchoAsync "x" started_client) as [[a w1]|] eqn:E1; [|discriminate E1].
  destruct (FlushAsync w1) as [[f w3]|] eqn:E3;
    [|vm_compute in E1; injection E1 as <- <-; discriminate E3].
  destruct (Flush_cancels_auto_flush (ToRequestEcho "x") None None
              started_client w1 a E1) as (_ & Harm).
  destruct Harm as (w2 & H2 & _ & _ & H2'); [discriminate|].
  destruct (Flush_cancels_auto_flush ToRequestFlush None None w1 w3 f E3) as (Hoff & _).
  exists a, w1, w2, f, w3.
  split; [reflexivity|]. split; [exact H2|]. split; [exact H2'|].
  split; [exact E3|]. apply Hoff. reflexivity.
Defined.

(** ** The synchronous forms on a failed client *)

(** X12.  On a client with a latched error and room for two requests in the
    submission queue, every synchronous form returns at once, without
    waiting for its handles: it returns the latched error, wrapped, and
    with it the empty value of its result, since no response was stored.
    [SetOptionSync] in particular returns the empty log and does not read
    through the missing response. *)
Theorem sync_forms_on_failed_client (e : error) (w : world) :
  err (cli w) = Some e ->
  length (reqQueue (cli w)) + 2 <= reqQueueSize ->
  let latched := Some (withMessage e HumanCode_InternalError) in
  (exists w', FlushSync w = Some (latched, w'))
  /\ (forall msg, exists w', EchoSync msg w = Some (None, latched, w'))
  /\ (forall req, exists w', InfoSync req w = Some (None, latched, w'))
  /\ (forall key value, exists w', SetOptionSync key value w = Some ("", latched, w'))
  /\ (forall tx, exists w', DeliverTxSync tx w = Some (None, latched, w'))
  /\ (forall tx, exists w', CheckTxSync tx w = Some (None, latched, w'))
  /\ (forall req, exists w', QuerySync req w = Some (None, latched, w'))
  /\ (exists w', CommitSync w = Some (None, latched, w'))
  /\ (forall params, exists w', InitChainSync params w = Some (latched, w'))
  /\ (forall params, exists w', BeginBlockSync params w = Some (latched, w'))
  /\ (forall height, exists w', EndBlockSync height w = Some (None, latched, w')).
Proof.
  intros He Hroom. cbv zeta.
  assert (Hsync : forall req,
    exists reqres w1 w2,
      queueRequest req w = Some (reqres, w1)
      /\ FlushSync w1 = Some (Some (withMessage e HumanCode_InternalError), w2)
      /\ Error w2 = Some (withMessage e HumanCode_InternalError)
      /\ deref_Response reqres w2 = None).
  { intros req.
    destruct (sync_prefix_failed req e w He Hroom)
      as (reqres & w1 & w2 & H1 & H2 & H3 & H4 & _).
    exists reqres, w1, w2. repeat split; assumption. }
  split.
  { destruct (FlushSync_failed e w He) as (w' & H & _); [lia|]. exists w'. exact H. }
  repeat split; intros;
    match goal with
    | |- exists w', ?call = _ =>
        match call with
        | EchoSync ?m _ => destruct (Hsync (ToRequestEcho m)) as (p & w1 & w2 & H1 & H2 & H3 & H4); unfold EchoSync
        | InfoSync ?r _ => destruct (Hsync (ToRequestInfo r)) as (p & w1 & w2 & H1 & H2 & H3 & H4); unfold InfoSync
        | SetOptionSync ?k ?v _ => destruct (Hsync (ToRequestSetOption k v)) as (p & w1 & w2 & H1 & H2 & H3 & H4); unfold SetOptionSync
        | DeliverTxSync ?t _ => destruct (Hsync (ToRequestDeliverTx t)) as (p & w1 & w2 & H1 & H2 & H3 & H4); unfold DeliverTxSync
        | CheckTxSync ?t _ => destruct (Hsync (ToRequestCheckTx t)) as (p & w1 & w2 & H1 & H2 & H3 & H4); unfold CheckTxSync
        | QuerySync ?r _ => destruct (Hsync (ToRequestQuery r)) as (p & w1 & w2 & H1 & H2 & H3 & H4); unfold QuerySync
        | CommitSync _ => destruct (Hsync ToRequestCommit) as (p & w1 & w2 & H1 & H2 & H3 & H4); unfold CommitSync
        | InitChainSync ?r _ => destruct (Hsync (ToRequestInitChain r)) as (p & w1 & w2 & H1 & H2 & H3 & H4); unfold InitChainSync
        | BeginBlockSync ?r _ => destruct (Hsync (ToRequestBeginBlock r)) as (p & w1 & w2 & H1 & H2 & H3 & H4); unfold BeginBlockSync
        | EndBlockSync ?h _ => destruct (Hsync (ToRequestEndBlock h)) as (p & w1 & w2 & H1 & H2 & H3 & H4); unfold EndBlockSync
        end
    end;
    exists w2; rewrite H1; cbn -[FlushSync]; rewrite H2; cbn; rewrite ?H3, ?H4;
    reflexivity.
Qed.

Lemma sync_forms_on_failed_client_witness :
  let w := StopForError (errorString "EOF") started_client in
  let latched := Some (withMessage (errorString "EOF") "Internal error") in
  exists w1 w2,
    SetOptionSync "serial" "on" w = Some ("", latched, w1)
    /\ EchoSync "hi" w = Some (None, latched, w2).
Proof.
  cbv zeta.
  destruct (sync_forms_on_failed_client (errorString "EOF")
              (StopForError (errorString "EOF") started_client))
    as (_ & HE & _ & HS & _); [reflexivity|vm_compute; lia|].
  destruct (HS "serial" "on") as (w1 & H1).
  destruct (HE "hi") as (w2 & H2).
  exists w1, w2. split; [exact H1|exact H2].
Defined.
